(** * onetyped: from TypeScript types to schema nodes

    A shallow embedding of [packages/typescript/src/from-type.ts]:
    the helpers [hasFlag], [hasSymbolFlag], [hasObjectFlag], the signature
    converter [getNodeFromCallSignatures] and the recursive classifier
    [fromType], followed by the properties of the classifier.

    The TypeScript compiler objects the source walks ([ts.Type],
    [ts.Symbol], [ts.Signature], the [TypeChecker]) form a graph of JS
    objects that may contain cycles.  Types are therefore referred to by
    reference ([TypeRef]) into a [heap], and the classifier is defined by
    recursion on a bound on the depth of its call stack. *)

From Stdlib Require Import ZArith List Bool Lia Arith.
From Stdlib Require Import Strings.String Strings.Ascii.
From Stdlib Require Import Floats.SpecFloat.
From Stdlib Require DecimalString DecimalN DecimalPos.
From Stdlib Require Import Sorting.Sorted Sorting.Permutation.
Import ListNotations.

#[local] Set Warnings "-register-all".

Local Open Scope Z_scope.

(** ** Completions of JS evaluations *)

(** Values that the modelled code can throw. *)
Inductive Thrown : Type :=
| Error (message : String.string)  (* [throw new Error(message)] of the source *)
| TypeError                        (* a property read on [undefined] *)
| SyntaxError.                     (* [BigInt(s)] on a string that is no integer literal *)

(** How the evaluation of a call ends: with a value, with a thrown
    exception, or not within the allowed call depth. *)
Inductive Completion (A : Type) : Type :=
| Normal (a : A)
| Throw (e : Thrown)
| OutOfFuel.

Arguments Normal {A} a.
Arguments Throw {A} e.
Arguments OutOfFuel {A}.

Definition bind {A B : Type} (c : Completion A) (k : A -> Completion B) : Completion B :=
  match c with
  | Normal a => k a
  | Throw e => Throw e
  | OutOfFuel => OutOfFuel
  end.

Notation "x <- c ;; k" := (bind c (fun x => k))
  (at level 61, c at next level, right associativity).

(** [c'] is [c] run with more call depth: it ends as [c] does when [c] ends. *)
Definition refines {A : Type} (c c' : Completion A) : Prop :=
  c = OutOfFuel \/ c' = c.

(** [Array.prototype.map] with a callback that may throw: the callback runs
    on the elements from left to right and the first abrupt completion ends
    the whole call. *)
Fixpoint mapM {A B : Type} (f : A -> Completion B) (xs : list A) : Completion (list B) :=
  match xs with
  | [] => Normal []
  | x :: rest =>
      y <- f x ;;
      ys <- mapM f rest ;;
      Normal (y :: ys)
  end.

(** ** JS values and builtins the source uses *)

(** TypeScript's [PseudoBigInt]: the sign and the decimal digits of a bigint
    literal. *)
Record PseudoBigInt : Type := mkPseudoBigInt {
  negative : bool;
  base10Value : String.string
}.

(** The JS values that occur as [type.value] and as the argument of
    [literal].  A number is an IEEE-754 double, which the classifier only
    passes on.  [JsPseudoBigInt] is the one whose [typeof] is ['object']. *)
Inductive JsValue : Type :=
| JsString (s : String.string)
| JsNumber (n : spec_float)
| JsBoolean (b : bool)
| JsBigInt (z : Z)
| JsPseudoBigInt (p : PseudoBigInt).

(** [ToInt32] on an integral number, and the operator [&]. *)
Definition ToInt32 (z : Z) : Z :=
  let m := z mod 2 ^ 32 in
  if m <? 2 ^ 31 then m else m - 2 ^ 32.

Definition bitand (a b : Z) : Z := ToInt32 (Z.land (ToInt32 a) (ToInt32 b)).

(** *** [BigInt(string)]

    A string holds the UTF-8 bytes of the JS string.  The white space that
    [BigInt] trims is the [WhiteSpace] and the [LineTerminator] of JS: the
    characters of one byte U+0009 to U+000D and U+0020, of two bytes U+00A0,
    and of three bytes U+1680, U+2000 to U+200A, U+2028, U+2029, U+202F,
    U+205F, U+3000 and U+FEFF. *)

Definition isWhiteSpace (c : ascii) : bool :=
  let n := nat_of_ascii c in
  ((9 <=? n) && (n <=? 13))%nat || (n =? 32)%nat.

(** U+00A0 is C2 A0. *)
Definition isWhiteSpace2 (a b : ascii) : bool :=
  ((nat_of_ascii a =? 194) && (nat_of_ascii b =? 160))%nat.

(** U+1680 is E1 9A 80; U+2000 to U+200A, U+2028, U+2029 and U+202F are
    E2 80 followed by 80 to 8A, A8, A9 and AF; U+205F is E2 81 9F; U+3000 is
    E3 80 80; U+FEFF is EF BB BF. *)
Definition isWhiteSpace3 (a b c : ascii) : bool :=
  let x := nat_of_ascii a in
  let y := nat_of_ascii b in
  let z := nat_of_ascii c in
  ((x =? 225) && ((y =? 154) && (z =? 128))
   || (x =? 226) && ((y =? 128)
                     && ((128 <=? z) && (z <=? 138) || (z =? 168) || (z =? 169) || (z =? 175)))
   || (x =? 226) && ((y =? 129) && (z =? 159))
   || (x =? 227) && ((y =? 128) && (z =? 128))
   || (x =? 239) && ((y =? 187) && (z =? 191)))%nat.

Fixpoint trimStart (cs : list ascii) : list ascii :=
  match cs with
  | [] => []
  | a :: rest1 =>
      if isWhiteSpace a then trimStart rest1
      else
        match rest1 with
        | [] => cs
        | b :: rest2 =>
            if isWhiteSpace2 a b then trimStart rest2
            else
              match rest2 with
              | [] => cs
              | c :: rest3 => if isWhiteSpace3 a b c then trimStart rest3 else cs
              end
        end
  end.

(** The same from the end, on the reversed string. *)
Fixpoint trimEndReversed (rs : list ascii) : list ascii :=
  match rs with
  | [] => []
  | c :: rest1 =>
      if isWhiteSpace c then trimEndReversed rest1
      else
        match rest1 with
        | [] => rs
        | b :: rest2 =>
            if isWhiteSpace2 b c then trimEndReversed rest2
            else
              match rest2 with
              | [] => rs
              | a :: rest3 => if isWhiteSpace3 a b c then trimEndReversed rest3 else rs
              end
        end
  end.

Definition trim (cs : list ascii) : list ascii :=
  rev (trimEndReversed (rev (trimStart cs))).

(** The value of a digit in the given radix (10 or less, or 16). *)
Definition digitValue (radix : Z) (c : ascii) : option Z :=
  let n := Z.of_nat (nat_of_ascii c) in
  let v :=
    if (48 <=? n) && (n <=? 57) then Some (n - 48)
    else if (97 <=? n) && (n <=? 102) then Some (n - 87)
    else if (65 <=? n) && (n <=? 70) then Some (n - 55)
    else None in
  match v with
  | Some d => if d <? radix then Some d else None
  | None => None
  end.

(** The digits read from the left, most significant first. *)
Fixpoint digitsFrom (radix : Z) (acc : Z) (cs : list ascii) : option Z :=
  match cs with
  | [] => Some acc
  | c :: rest =>
      match digitValue radix c with
      | Some d => digitsFrom radix (acc * radix + d) rest
      | None => None
      end
  end.

Definition digits (radix : Z) (cs : list ascii) : option Z :=
  match cs with
  | [] => None
  | _ => digitsFrom radix 0 cs
  end.

(** The radix a prefix [0x], [0o] or [0b] announces. *)
Definition radixOfPrefix (c : ascii) : option Z :=
  if Ascii.eqb c "x" || Ascii.eqb c "X" then Some 16
  else if Ascii.eqb c "o" || Ascii.eqb c "O" then Some 8
  else if Ascii.eqb c "b" || Ascii.eqb c "B" then Some 2
  else None.

Definition nonDecimalLiteral (text : list ascii) : option (Z * list ascii) :=
  match text with
  | zero :: p :: ds =>
      if Ascii.eqb zero "0" then
        match radixOfPrefix p with
        | Some radix => Some (radix, ds)
        | None => None
        end
      else None
  | _ => None
  end.

(** [StringToBigInt]: white space is trimmed, the empty string is zero, a
    literal with a radix prefix takes no sign, a decimal literal takes an
    optional sign. *)
Definition StringToBigInt (str : String.string) : option Z :=
  let text := trim (list_ascii_of_string str) in
  match text with
  | [] => Some 0
  | c :: rest =>
      match nonDecimalLiteral text with
      | Some (radix, ds) => digits radix ds
      | None =>
          if Ascii.eqb c "-" then option_map Z.opp (digits 10 rest)
          else if Ascii.eqb c "+" then digits 10 rest
          else digits 10 text
      end
  end.

Definition BigInt (str : String.string) : Completion Z :=
  match StringToBigInt str with
  | Some z => Normal z
  | None => Throw SyntaxError
  end.

(** ** Schema nodes *)

(** Modelled from the spec: the node builders of [@onetyped/core] ([string],
    [number], ..., [optional]), which the source imports and whose code is
    not part of the classifier.  The spec gives their contract as "build an
    immutable node of variant V from the given children/metadata", so each
    builder is a constructor.  The value of [object] is a JS object: its own
    properties in the order of its own keys, no name twice. *)
Module Core.

Inductive AnyNode : Type :=
| string
| number
| boolean
| unknown
| any
| bigint
| literal (value : JsValue)
| date
| array (element : AnyNode)
| set (element : AnyNode)
| map (key value : AnyNode)
| record (key value : AnyNode)
| tuple (elements : list AnyNode)
| object (shape : list (String.string * AnyNode))
| func (arguments : list AnyNode) (return_ : AnyNode)
| union (nodes : list AnyNode)
| intersection (nodes : list AnyNode)
| optional (inner : AnyNode).

End Core.

Abbreviation AnyNode := Core.AnyNode.

(** The decimal digits of a natural number: [ToString] of it. *)
Definition decimalDigits (n : N) : String.string :=
  DecimalString.NilZero.string_of_uint (N.to_uint n).

(** An array index: a name that is the canonical decimal form of an integer
    from 0 below 2^32 - 1 (["7"], but not ["07"], ["+7"] or ["7.0"]). *)
Definition arrayIndex (k : String.string) : option Z :=
  match digits 10 (list_ascii_of_string k) with
  | Some n =>
      if (n <? 2 ^ 32 - 1) && String.eqb (decimalDigits (Z.to_N n)) k then Some n else None
  | None => None
  end.

(** A JS object as the list of its own properties in the order of
    [OrdinaryOwnPropertyKeys]: first the properties whose name is an array
    index, by ascending index, then the others, in the order of their
    creation. *)
Definition JsObject : Type := list (String.string * AnyNode).

Definition hasProperty (o : JsObject) (k : String.string) : bool :=
  existsb (fun entry => String.eqb (fst entry) k) o.

(** An existing property keeps its place and takes the new value. *)
Fixpoint setProperty (o : JsObject) (k : String.string) (v : AnyNode) : JsObject :=
  match o with
  | [] => []
  | (k', v') :: rest =>
      if String.eqb k' k then (k', v) :: rest else (k', v') :: setProperty rest k v
  end.

(** The name [k] comes before the name [k'] of another property whatever
    the order of creation: an array index before a larger one and before
    every other name. *)
Definition precedes (k k' : String.string) : bool :=
  match arrayIndex k, arrayIndex k' with
  | Some i, Some j => i <? j
  | Some _, None => true
  | None, _ => false
  end.

(** A new property takes its place in front of the first property its name
    comes before, and the last place when there is none. *)
Fixpoint addProperty (o : JsObject) (k : String.string) (v : AnyNode) : JsObject :=
  match o with
  | [] => [(k, v)]
  | (k', v') :: rest =>
      if precedes k k' then (k, v) :: o else (k', v') :: addProperty rest k v
  end.

(** [CreateDataProperty] *)
Definition defineProperty (o : JsObject) (k : String.string) (v : AnyNode) : JsObject :=
  if hasProperty o k then setProperty o k v else addProperty o k v.

(** [Object.fromEntries] *)
Definition fromEntries (entries : list (String.string * AnyNode)) : JsObject :=
  fold_left (fun o e => defineProperty o (fst e) (snd e)) entries [].

(** The entries whose name is an array index, and the order of two of
    them. *)
Definition isIndexed (entry : String.string * AnyNode) : bool :=
  match arrayIndex (fst entry) with
  | Some _ => true
  | None => false
  end.

Definition indexBefore (entry entry' : String.string * AnyNode) : Prop :=
  match arrayIndex (fst entry), arrayIndex (fst entry') with
  | Some i, Some j => i < j
  | _, _ => False
  end.

(** ** The TypeScript compiler objects *)

(** A reference to a [ts.Type] object. *)
Definition TypeRef : Type := nat.

Bind Scope nat_scope with TypeRef.

(** [ts.Symbol]: the members the source reads, and the identity of the
    symbol, by which the checker knows it. *)
Record Symbol : Type := mkSymbol {
  name : String.string;
  symbolFlags : Z;
  symbolId : nat
}.

(** [ts.Signature] *)
Record Signature : Type := mkSignature {
  getParameters : list Symbol;
  signatureId : nat
}.

(** [ts.Type], with the members of [ts.ObjectType], [ts.TypeReference],
    [ts.LiteralType] and [ts.UnionOrIntersectionType] the source reads after
    its casts.  [isLiteral], [isUnion] and [isIntersection] hold what the
    methods of these names return, [getProperties], [getCallSignatures] and
    [getSymbol] likewise ([None] is [undefined]). *)
Record Type_ : Type := mkType {
  flags : Z;
  objectFlags : Z;
  target : TypeRef;
  isLiteral : bool;
  value : JsValue;
  getProperties : list Symbol;
  getCallSignatures : list Signature;
  getSymbol : option Symbol;
  isUnion : bool;
  isIntersection : bool;
  types : list TypeRef
}.

(** [ts.TypeChecker]: the methods the source calls.  [Node_] is the type of
    syntax nodes ([ts.Node]). *)
Record TypeChecker (Node_ : Type) : Type := mkTypeChecker {
  getTypeOfSymbolAtLocation : Symbol -> Node_ -> TypeRef;
  getReturnTypeOfSignature : Signature -> TypeRef;
  getTypeArguments : TypeRef -> list TypeRef;
  typeToString : TypeRef -> String.string
}.

Arguments getTypeOfSymbolAtLocation {Node_} _ _ _.
Arguments getReturnTypeOfSignature {Node_} _ _.
Arguments getTypeArguments {Node_} _ _.
Arguments typeToString {Node_} _ _.

(** The enum members of the [typescript] package the source names.  Their
    values belong to that package; the classifier is defined for any. *)
Module TypeFlags.
Record t : Type := mk {
  String : Z; Number : Z; Boolean : Z; Unknown : Z;
  Any : Z; BigInt : Z; Object : Z
}.
End TypeFlags.

Module ObjectFlags.
Record t : Type := mk { Reference : Z; Tuple : Z }.
End ObjectFlags.

Module SymbolFlags.
Record t : Type := mk { Optional : Z }.
End SymbolFlags.

Record ts : Type := mkTs {
  ts_TypeFlags : TypeFlags.t;
  ts_ObjectFlags : ObjectFlags.t;
  ts_SymbolFlags : SymbolFlags.t
}.

(** ** The source *)

Definition hasFlag (type : Type_) (flag : Z) : bool :=
  bitand (flags type) flag =? flag.

Definition hasSymbolFlag (symbol : Symbol) (flag : Z) : bool :=
  bitand (symbolFlags symbol) flag =? flag.

Definition hasObjectFlag (type : Type_) (flag : Z) : bool :=
  bitand (objectFlags type) flag =? flag.

(** [filter(Boolean)] on the results of the tuple callback: [undefined]
    ([None]) is falsy and dropped, a node is an object, truthy, and kept. *)
Fixpoint filterBoolean (xs : list (option AnyNode)) : list AnyNode :=
  match xs with
  | [] => []
  | Some node :: rest => node :: filterBoolean rest
  | None :: rest => filterBoolean rest
  end.

Section FromType.

Context {Node_ : Type}.
Variable TS : ts.
Variable heap : TypeRef -> Type_.

Let TF := ts_TypeFlags TS.
Let OF := ts_ObjectFlags TS.
Let SF := ts_SymbolFlags TS.

(** [getNodeFromCallSignatures]; [fromType] is the classifier the source
    calls back into, [None] is [undefined]. *)
Definition getNodeFromCallSignatures
    (fromType : option TypeRef -> Node_ -> TypeChecker Node_ -> Completion AnyNode)
    (callSignatures : list Signature) (locationNode : Node_) (checker : TypeChecker Node_)
    : Completion (option AnyNode) :=
  if (0 <? List.length callSignatures)%nat then
    nodeCallSignatures <-
      mapM (fun signature =>
              parameters <-
                mapM (fun parameter =>
                        let parameterType :=
                          getTypeOfSymbolAtLocation checker parameter locationNode in
                        fromType (Some parameterType) locationNode checker)
                     (getParameters signature) ;;
              let returnType := getReturnTypeOfSignature checker signature in
              return_ <- fromType (Some returnType) locationNode checker ;;
              Normal (Core.func parameters return_))
           callSignatures ;;
    if (List.length nodeCallSignatures =? 1)%nat
    then Normal (nth_error nodeCallSignatures 0)
    else Normal (Some (Core.union nodeCallSignatures))
  else Normal None.

(** [fromType].  [type] is [None] when the caller passes [undefined]: the
    first [hasFlag] then reads [type.flags] and throws.  [fuel] bounds the
    depth of the nested calls of [fromType] on types. *)
Fixpoint fromType (fuel : nat) (type : option TypeRef) (locationNode : Node_)
    (checker : TypeChecker Node_) {struct fuel} : Completion AnyNode :=
  match type with
  | None => Throw TypeError
  | Some ref =>
    match fuel with
    | O => OutOfFuel
    | S fuel' =>
      let type := heap ref in
      if hasFlag type (TypeFlags.String TF) then Normal Core.string
      else if hasFlag type (TypeFlags.Number TF) then Normal Core.number
      else if hasFlag type (TypeFlags.Boolean TF) then Normal Core.boolean
      else if hasFlag type (TypeFlags.Unknown TF) then Normal Core.unknown
      else if isLiteral type then
        match value type with
        | JsPseudoBigInt v =>
            bigIntLiteral <-
              BigInt ((if negative v then "-" else "") ++ base10Value v) ;;
            Normal (Core.literal (JsBigInt bigIntLiteral))
        | v => Normal (Core.literal v)
        end
      else if hasFlag type (TypeFlags.Any TF) then Normal Core.any
      else if hasFlag type (TypeFlags.BigInt TF) then Normal Core.bigint
      else if hasFlag type (TypeFlags.Object TF) then
        let objectType := type in
        if hasObjectFlag objectType (ObjectFlags.Reference OF)
           && hasObjectFlag (heap (target type)) (ObjectFlags.Tuple OF)
        then
          tupleTypes <-
            mapM (fun property =>
                    if String.eqb (name property) "length" then Normal None
                    else
                      let propertyType :=
                        getTypeOfSymbolAtLocation checker property locationNode in
                      node <- fromType fuel' (Some propertyType) locationNode checker ;;
                      Normal (Some (if hasSymbolFlag property (SymbolFlags.Optional SF)
                                    then Core.optional node else node)))
                 (getProperties type) ;;
          Normal (Core.tuple (filterBoolean tupleTypes))
        else
          propertyEntries <-
            mapM (fun property =>
                    let propertyType :=
                      getTypeOfSymbolAtLocation checker property locationNode in
                    node <- fromType fuel' (Some propertyType) locationNode checker ;;
                    Normal (name property,
                            if hasSymbolFlag property (SymbolFlags.Optional SF)
                            then Core.optional node else node))
                 (getProperties type) ;;
          let callSignatures := getCallSignatures type in
          functionNode <-
            getNodeFromCallSignatures (fromType fuel') callSignatures locationNode checker ;;
          match functionNode with
          | Some functionNode =>
              if (List.length propertyEntries =? 0)%nat then Normal functionNode
              else
                let propertySchemas := fromEntries propertyEntries in
                Normal (Core.intersection [functionNode; Core.object propertySchemas])
          | None =>
              let propertySchemas := fromEntries propertyEntries in
              let objectNode := Core.object propertySchemas in
              Normal objectNode
          end
      else
        match getSymbol type with
        | Some symbol =>
            if String.eqb (name symbol) "Array" || String.eqb (name symbol) "ReadonlyArray"
            then
              let typeArguments := getTypeArguments checker ref in
              element <- fromType fuel' (nth_error typeArguments 0) locationNode checker ;;
              Normal (Core.array element)
            else if String.eqb (name symbol) "Date" then Normal Core.date
            else if String.eqb (name symbol) "Set" then
              let typeArguments := getTypeArguments checker ref in
              element <- fromType fuel' (nth_error typeArguments 0) locationNode checker ;;
              Normal (Core.set element)
            else if String.eqb (name symbol) "Record" then
              let typeArguments := getTypeArguments checker ref in
              key <- fromType fuel' (nth_error typeArguments 0) locationNode checker ;;
              value <- fromType fuel' (nth_error typeArguments 1) locationNode checker ;;
              Normal (Core.record key value)
            else if String.eqb (name symbol) "Map" then
              let typeArguments := getTypeArguments checker ref in
              key <- fromType fuel' (nth_error typeArguments 0) locationNode checker ;;
              value <- fromType fuel' (nth_error typeArguments 1) locationNode checker ;;
              Normal (Core.map key value)
            else Throw (Error ("Unknown symbol name: " ++ name symbol))
        | None =>
            if isUnion type then
              unionTypes <-
                mapM (fun unionType => fromType fuel' (Some unionType) locationNode checker)
                     (types type) ;;
              Normal (Core.union unionTypes)
            else if isIntersection type then
              intersectionTypes <-
                mapM (fun type => fromType fuel' (Some type) locationNode checker)
                     (types type) ;;
              Normal (Core.intersection intersectionTypes)
            else Throw (Error ("Unknown type: " ++ typeToString checker ref))
        end
    end
  end.

End FromType.

Arguments getNodeFromCallSignatures {Node_} fromType callSignatures locationNode checker.
Arguments fromType {Node_} TS heap fuel type locationNode checker.

(** ** The dispatch table of the specification *)

(** The steps of the documented dispatch order (4.1, steps 1 to 11). *)
Inductive Step : Type :=
| IsString | IsNumber | IsBoolean | IsUnknown | IsLiteral | IsAny | IsBigInt
| IsObject | HasSymbol | IsUnion | IsIntersection.

Definition priority : list Step :=
  [IsString; IsNumber; IsBoolean; IsUnknown; IsLiteral; IsAny; IsBigInt;
   IsObject; HasSymbol; IsUnion; IsIntersection].

(** The test of each step on a type. *)
Definition matches (TS : ts) (type : Type_) (step : Step) : bool :=
  match step with
  | IsString => hasFlag type (TypeFlags.String (ts_TypeFlags TS))
  | IsNumber => hasFlag type (TypeFlags.Number (ts_TypeFlags TS))
  | IsBoolean => hasFlag type (TypeFlags.Boolean (ts_TypeFlags TS))
  | IsUnknown => hasFlag type (TypeFlags.Unknown (ts_TypeFlags TS))
  | IsLiteral => isLiteral type
  | IsAny => hasFlag type (TypeFlags.Any (ts_TypeFlags TS))
  | IsBigInt => hasFlag type (TypeFlags.BigInt (ts_TypeFlags TS))
  | IsObject => hasFlag type (TypeFlags.Object (ts_TypeFlags TS))
  | HasSymbol => match getSymbol type with Some _ => true | None => false end
  | IsUnion => isUnion type
  | IsIntersection => isIntersection type
  end.

(** First match wins. *)
Definition dispatch (TS : ts) (type : Type_) : option Step :=
  find (matches TS type) priority.

(** The node of a primitive step. *)
Definition primitive (step : Step) : option AnyNode :=
  match step with
  | IsString => Some Core.string
  | IsNumber => Some Core.number
  | IsBoolean => Some Core.boolean
  | IsUnknown => Some Core.unknown
  | IsAny => Some Core.any
  | IsBigInt => Some Core.bigint
  | _ => None
  end.

(** The rules of the specification, over the classification [classify] of
    the constituent types. *)
Section Rules.

Context {Node_ : Type}.
Variable TS : ts.
Variable heap : TypeRef -> Type_.
Variable locationNode : Node_.
Variable checker : TypeChecker Node_.
Variable classify : option TypeRef -> Completion AnyNode.

Definition isOptional (property : Symbol) : bool :=
  hasSymbolFlag property (SymbolFlags.Optional (ts_SymbolFlags TS)).

Definition typeOfSymbol (symbol : Symbol) : TypeRef :=
  getTypeOfSymbolAtLocation checker symbol locationNode.

(** Step 5. *)
Definition literalRule (type : Type_) : Completion AnyNode :=
  match value type with
  | JsPseudoBigInt p =>
      z <- BigInt ((if negative p then "-" else "") ++ base10Value p) ;;
      Normal (Core.literal (JsBigInt z))
  | v => Normal (Core.literal v)
  end.

(** A member: its type classified, wrapped when the member is optional. *)
Definition memberNode (property : Symbol) : Completion AnyNode :=
  node <- classify (Some (typeOfSymbol property)) ;;
  Normal (if isOptional property then Core.optional node else node).

Definition isTupleReference (type : Type_) : bool :=
  hasObjectFlag type (ObjectFlags.Reference (ts_ObjectFlags TS))
  && hasObjectFlag (heap (target type)) (ObjectFlags.Tuple (ts_ObjectFlags TS)).

Definition notLength (property : Symbol) : bool :=
  negb (String.eqb (name property) "length").

Definition tupleRule (type : Type_) : Completion AnyNode :=
  elements <- mapM memberNode (filter notLength (getProperties type)) ;;
  Normal (Core.tuple elements).

(** 4.2, one signature. *)
Definition signatureNode (signature : Signature) : Completion AnyNode :=
  argumentNodes <- mapM (fun parameter => classify (Some (typeOfSymbol parameter)))
                        (getParameters signature) ;;
  returnNode <- classify (Some (getReturnTypeOfSignature checker signature)) ;;
  Normal (Core.func argumentNodes returnNode).

(** 4.2 *)
Definition convertSignatures (signatures : list Signature) : Completion (option AnyNode) :=
  match signatures with
  | [] => Normal None
  | [signature] => node <- signatureNode signature ;; Normal (Some node)
  | _ => nodes <- mapM signatureNode signatures ;; Normal (Some (Core.union nodes))
  end.

Definition propertyEntry (property : Symbol) : Completion (String.string * AnyNode) :=
  node <- memberNode property ;;
  Normal (name property, node).

(** The three ways to combine the signatures and the properties. *)
Definition combine (signatureResult : option AnyNode)
    (propertyMap : list (String.string * AnyNode)) : AnyNode :=
  match signatureResult, propertyMap with
  | None, _ => Core.object (fromEntries propertyMap)
  | Some node, [] => node
  | Some node, _ :: _ => Core.intersection [node; Core.object (fromEntries propertyMap)]
  end.

Definition plainObjectRule (type : Type_) : Completion AnyNode :=
  propertyMap <- mapM propertyEntry (getProperties type) ;;
  signatureResult <- convertSignatures (getCallSignatures type) ;;
  Normal (combine signatureResult propertyMap).

(** Step 8. *)
Definition compositeObjectRule (type : Type_) : Completion AnyNode :=
  if isTupleReference type then tupleRule type else plainObjectRule type.

(** Step 9. *)
Definition namedGenericRule (ref : TypeRef) (symbol : Symbol) : Completion AnyNode :=
  let first := nth_error (getTypeArguments checker ref) 0 in
  let second := nth_error (getTypeArguments checker ref) 1 in
  if String.eqb (name symbol) "Array" || String.eqb (name symbol) "ReadonlyArray" then
    element <- classify first ;; Normal (Core.array element)
  else if String.eqb (name symbol) "Date" then Normal Core.date
  else if String.eqb (name symbol) "Set" then
    element <- classify first ;; Normal (Core.set element)
  else if String.eqb (name symbol) "Record" then
    key <- classify first ;; value <- classify second ;; Normal (Core.record key value)
  else if String.eqb (name symbol) "Map" then
    key <- classify first ;; value <- classify second ;; Normal (Core.map key value)
  else Throw (Error ("Unknown symbol name: " ++ name symbol)).

(** Steps 10 and 11. *)
Definition constituentsRule (build : list AnyNode -> AnyNode) (type : Type_)
    : Completion AnyNode :=
  nodes <- mapM (fun constituent => classify (Some constituent)) (types type) ;;
  Normal (build nodes).

Definition unknownType (ref : TypeRef) : Completion AnyNode :=
  Throw (Error ("Unknown type: " ++ typeToString checker ref)).

(** The rule of each step, and of no step.  A type at the step of the
    nominal symbol has one. *)
Definition rule (ref : TypeRef) (step : option Step) : Completion AnyNode :=
  let type := heap ref in
  match step with
  | Some IsString => Normal Core.string
  | Some IsNumber => Normal Core.number
  | Some IsBoolean => Normal Core.boolean
  | Some IsUnknown => Normal Core.unknown
  | Some IsLiteral => literalRule type
  | Some IsAny => Normal Core.any
  | Some IsBigInt => Normal Core.bigint
  | Some IsObject => compositeObjectRule type
  | Some HasSymbol =>
      match getSymbol type with
      | Some symbol => namedGenericRule ref symbol
      | None => unknownType ref
      end
  | Some IsUnion => constituentsRule Core.union type
  | Some IsIntersection => constituentsRule Core.intersection type
  | None => unknownType ref
  end.

(** What it is for the members, entries and signatures to classify: the
    relations between the parts of a type and the nodes made of them. *)
Definition memberYields (property : Symbol) (node : AnyNode) : Prop :=
  exists inner,
    classify (Some (typeOfSymbol property)) = Normal inner
    /\ node = (if isOptional property then Core.optional inner else inner).

Definition propertyYields (property : Symbol) (entry : String.string * AnyNode) : Prop :=
  fst entry = name property /\ memberYields property (snd entry).

Definition parameterYields (parameter : Symbol) (node : AnyNode) : Prop :=
  classify (Some (typeOfSymbol parameter)) = Normal node.

Definition signatureYields (signature : Signature) (node : AnyNode) : Prop :=
  exists argumentNodes returnNode,
    Forall2 parameterYields (getParameters signature) argumentNodes
    /\ classify (Some (getReturnTypeOfSignature checker signature)) = Normal returnNode
    /\ node = Core.func argumentNodes returnNode.

End Rules.

(** The names the Named Generic rule knows, with the number of type
    arguments the branch of each reads. *)
Definition requiredArguments (symbolName : String.string) : option nat :=
  if String.eqb symbolName "Array" || String.eqb symbolName "ReadonlyArray" then Some 1%nat
  else if String.eqb symbolName "Date" then Some 0%nat
  else if String.eqb symbolName "Set" then Some 1%nat
  else if String.eqb symbolName "Record" then Some 2%nat
  else if String.eqb symbolName "Map" then Some 2%nat
  else None.

(** The flags of the data model: every step but the one of the symbol. *)
Definition capabilityFlags : list Step :=
  [IsString; IsNumber; IsBoolean; IsUnknown; IsLiteral; IsAny; IsBigInt;
   IsObject; IsUnion; IsIntersection].

(** [step] is the first step of the documented order that matches. *)
Definition firstMatch (TS : ts) (type : Type_) (step : Step) : Prop :=
  exists before after,
    priority = before ++ step :: after
    /\ Forall (fun earlier => matches TS type earlier = false) before
    /\ matches TS type step = true.

(** *** Decimal digit strings *)

Definition isDecimalDigit (c : ascii) : bool :=
  let n := nat_of_ascii c in ((48 <=? n) && (n <=? 57))%nat.

Definition isDigitString (s : String.string) : bool :=
  match list_ascii_of_string s with
  | [] => false
  | cs => forallb isDecimalDigit cs
  end.

(** The number a digit string denotes: each digit weighs its power of
    ten. *)
Fixpoint decimalValue (cs : list ascii) : Z :=
  match cs with
  | [] => 0
  | c :: rest =>
      (Z.of_nat (nat_of_ascii c) - 48) * 10 ^ Z.of_nat (List.length rest) + decimalValue rest
  end.

(** The signed integer of a [PseudoBigInt]. *)
Definition signedValue (p : PseudoBigInt) : Z :=
  let magnitude := decimalValue (list_ascii_of_string (base10Value p)) in
  if negative p then - magnitude else magnitude.

(** The [PseudoBigInt] of an integer: its sign and the digits of its
    magnitude. *)
Definition pseudoBigIntOf (z : Z) : PseudoBigInt :=
  mkPseudoBigInt (z <? 0) (decimalDigits (Z.abs_N z)).

(** ** The type graph *)

Section Graph.

Context {Node_ : Type}.
Variable TS : ts.
Variable heap : TypeRef -> Type_.
Variable locationNode : Node_.
Variable checker : TypeChecker Node_.

(** The classification of a type with the call depth [fuel]. *)
Definition classifyAt (fuel : nat) (type : option TypeRef) : Completion AnyNode :=
  fromType TS heap fuel type locationNode checker.

(** The types one type is made of: those of its members, of the
    parameters and results of its call signatures, its type arguments and
    its union or intersection constituents. *)
Definition constituents (ref : TypeRef) : list TypeRef :=
  let type := heap ref in
  List.map (typeOfSymbol locationNode checker) (getProperties type)
  ++ flat_map (fun signature =>
                 List.map (typeOfSymbol locationNode checker) (getParameters signature)
                 ++ [getReturnTypeOfSignature checker signature])
              (getCallSignatures type)
  ++ getTypeArguments checker ref
  ++ types type.

(** The types nested in a type, at any depth. *)
Inductive reaches : TypeRef -> TypeRef -> Prop :=
| reaches_here (ref : TypeRef) : reaches ref ref
| reaches_inside (ref inner origin : TypeRef) :
    In inner (constituents ref) -> reaches inner origin -> reaches ref origin.

(** A graph without cycles: [depth] bounds the nesting below each type. *)
Definition acyclic (depth : TypeRef -> nat) : Prop :=
  forall ref inner, In inner (constituents ref) -> (depth inner < depth ref)%nat.

(** The failure [e] of a constituent of [ref] at the call depth [fuel]. *)
Definition innerFailure (fuel : nat) (ref : TypeRef) (e : Thrown) : Prop :=
  exists inner, In inner (constituents ref) /\ classifyAt fuel (Some inner) = Throw e.

(** The failures that start at a type: the two errors the classifier
    throws itself, and the two faults of the runtime. *)
Inductive failsAt (ref : TypeRef) : Thrown -> Prop :=
| unsupported_symbol (symbol : Symbol) :
    dispatch TS (heap ref) = Some HasSymbol ->
    getSymbol (heap ref) = Some symbol ->
    requiredArguments (name symbol) = None ->
    failsAt ref (Error ("Unknown symbol name: " ++ name symbol))
| unsupported_type :
    dispatch TS (heap ref) = None ->
    failsAt ref (Error ("Unknown type: " ++ typeToString checker ref))
| missing_type_argument (symbol : Symbol) (required : nat) :
    dispatch TS (heap ref) = Some HasSymbol ->
    getSymbol (heap ref) = Some symbol ->
    requiredArguments (name symbol) = Some required ->
    (List.length (getTypeArguments checker ref) < required)%nat ->
    failsAt ref TypeError
| malformed_bigint (p : PseudoBigInt) :
    dispatch TS (heap ref) = Some IsLiteral ->
    value (heap ref) = JsPseudoBigInt p ->
    StringToBigInt ((if negative p then "-" else "") ++ base10Value p) = None ->
    failsAt ref SyntaxError.

(** The calls of the classifier on itself that the call on [ref] makes when
    none of them fails, in the order of their evaluation: on the types of
    the members (but [length]) of a tuple reference; on the types of the
    members and then, signature by signature, on the types of the parameters
    and on the return type of another object type; on the type arguments a
    recognized name reads, where [None] is the [undefined] read past the last
    type argument; on the constituents of a union or an intersection. *)
Definition nestedCalls (ref : TypeRef) : list (option TypeRef) :=
  let type := heap ref in
  let typeOf := fun symbol => Some (typeOfSymbol locationNode checker symbol) in
  match dispatch TS type with
  | Some IsObject =>
      if isTupleReference TS heap type then
        List.map typeOf (filter notLength (getProperties type))
      else
        List.map typeOf (getProperties type)
        ++ flat_map (fun signature =>
                       List.map typeOf (getParameters signature)
                       ++ [Some (getReturnTypeOfSignature checker signature)])
                    (getCallSignatures type)
  | Some HasSymbol =>
      match getSymbol type with
      | Some symbol =>
          match requiredArguments (name symbol) with
          | Some required =>
              List.map (nth_error (getTypeArguments checker ref)) (seq 0 required)
          | None => []
          end
      | None => []
      end
  | Some IsUnion | Some IsIntersection => List.map Some (types type)
  | _ => []
  end.

(** The failures the call on [ref] throws itself, without a call on a
    nested type: the two errors of the classifier and the [SyntaxError] of
    [BigInt]. *)
Inductive throwsItself (ref : TypeRef) : Thrown -> Prop :=
| throws_unsupported_symbol (symbol : Symbol) :
    dispatch TS (heap ref) = Some HasSymbol ->
    getSymbol (heap ref) = Some symbol ->
    requiredArguments (name symbol) = None ->
    throwsItself ref (Error ("Unknown symbol name: " ++ name symbol))
| throws_unsupported_type :
    dispatch TS (heap ref) = None ->
    throwsItself ref (Error ("Unknown type: " ++ typeToString checker ref))
| throws_malformed_bigint (p : PseudoBigInt) :
    dispatch TS (heap ref) = Some IsLiteral ->
    value (heap ref) = JsPseudoBigInt p ->
    StringToBigInt ((if negative p then "-" else "") ++ base10Value p) = None ->
    throwsItself ref SyntaxError.

(** The nested call on [type] returns a node. *)
Definition returns (fuel : nat) (type : option TypeRef) : Prop :=
  exists node, classifyAt fuel type = Normal node.

(** The first nested call that does not return a node throws [e]: the
    calls before it return. *)
Definition firstFailure (fuel : nat) (ref : TypeRef) (e : Thrown) : Prop :=
  exists before inner after,
    nestedCalls ref = before ++ inner :: after
    /\ Forall (returns fuel) before
    /\ classifyAt fuel inner = Throw e.

End Graph.


(** ** A TypeScript program as the classifier sees it *)

Module Example.

(** The values of the enum members in the [typescript] package (version
    4), the named ones and those the types below carry. *)
Definition TS : ts :=
  mkTs (TypeFlags.mk 4 8 16 2 1 64 524288) (ObjectFlags.mk 4 8) (SymbolFlags.mk 16777216).

Definition StringLiteral : Z := 128.
Definition NumberLiteral : Z := 256.
Definition BigIntLiteral : Z := 2048.
Definition Void : Z := 16384.
Definition TypeParameter : Z := 262144.
Definition Object : Z := 524288.
Definition Union : Z := 1048576.
Definition Intersection : Z := 2097152.
Definition Anonymous : Z := 16.
Definition Property : Z := 4.
Definition Optional : Z := 16777216.

(** A type with the given flags and nothing else. *)
Definition intrinsic (f : Z) : Type_ :=
  mkType f 0 0%nat false (JsBoolean false) [] [] None false false [].

Definition literalType (f : Z) (v : JsValue) : Type_ :=
  mkType f 0 0%nat true v [] [] None false false [].

Definition objectType (oflags : Z) (tgt : TypeRef) (props : list Symbol)
    (sigs : list Signature) : Type_ :=
  mkType Object oflags tgt false (JsBoolean false) props sigs None false false [].

Definition named (f : Z) (n : String.string) : Type_ :=
  mkType f 0 0%nat false (JsBoolean false) [] [] (Some (mkSymbol n 0 100%nat)) false false [].

(** The double 42. *)
Definition fortyTwo : spec_float := S754_finite false 5910974510923776 (-47).

(** The symbols: properties and parameters. *)
Definition sym_a := mkSymbol "a" Property 0%nat.              (* a: string *)
Definition sym_b := mkSymbol "b" (Property + Optional) 1%nat. (* b?: number *)
Definition sym_0 := mkSymbol "0" Property 2%nat.              (* [string, ...] *)
Definition sym_1 := mkSymbol "1" (Property + Optional) 3%nat. (* [..., number?] *)
Definition sym_length := mkSymbol "length" Property 4%nat.
Definition sym_self := mkSymbol "self" Property 5%nat.
Definition sym_x := mkSymbol "x" 1 6%nat.                     (* a parameter x: string *)
Definition sym_y := mkSymbol "y" 1 7%nat.                     (* a parameter y: number *)

Definition sig_f := mkSignature [sym_x] 0%nat.                (* (x: string) => number *)
Definition sig_g := mkSignature [sym_x; sym_y] 1%nat.         (* (x: string, y: number) => string *)

Definition heap (ref : TypeRef) : Type_ :=
  match ref with
  | 0 => intrinsic 4                                       (* string *)
  | 1 => intrinsic 8                                       (* number *)
  | 2 => literalType StringLiteral (JsString "x")
  | 3 => literalType StringLiteral (JsString "y")
  | 4 => mkType Union 0 0 false (JsBoolean false) [] [] None true false [2; 3]
  | 5 => objectType Anonymous 0 [sym_a; sym_b] []          (* { a: string, b?: number } *)
  | 6 => objectType 4 7 [sym_0; sym_1; sym_length] []      (* [string, number?] *)
  | 7 => objectType 12 7 [] []                             (* the target of 6 *)
  | 8 => objectType Anonymous 0 [sym_b] [sig_f]            (* callable, with b *)
  | 9 => objectType Anonymous 0 [] [sig_f; sig_g]          (* two overloads *)
  | 10 => literalType BigIntLiteral (JsPseudoBigInt (mkPseudoBigInt true "123"))
  | 11 => named TypeParameter "Array"
  | 12 => named TypeParameter "ReadonlyArray"
  | 13 => named TypeParameter "Foo"
  | 14 => intrinsic Void
  | 16 => objectType 4 17 [sym_length] []                  (* [] *)
  | 17 => objectType 12 17 [] []                           (* the target of 16 *)
  | 18 => named TypeParameter "Record"
  | 19 => named TypeParameter "Map"
  | 20 => named TypeParameter "Date"
  | 21 => named TypeParameter "Set"
  | 22 => literalType NumberLiteral (JsNumber fortyTwo)
  | 23 => objectType Anonymous 0 [] [sig_f]                (* (x: string) => number *)
  | 24 => mkType Intersection 0 0 false (JsBoolean false) [] [] None false true [5; 8]
  | _ => intrinsic 1                                       (* any *)
  end%nat.

Definition checker : TypeChecker unit :=
  mkTypeChecker unit
    (fun symbol _ =>
       match symbolId symbol with
       | 0 => 0 | 1 => 1 | 2 => 0 | 3 => 1 | 4 => 1 | 5 => 15 | 6 => 0 | 7 => 1
       | _ => 14
       end%nat)
    (fun signature =>
       match signatureId signature with
       | 0 => 1
       | _ => 0
       end%nat)
    (fun ref =>
       match ref with
       | 11 => [0]
       | 18 => [0]
       | 19 => [0; 1]
       | 21 => [1]
       | _ => []
       end%nat)
    (fun ref =>
       match ref with
       | 14 => "void"
       | _ => "?"
       end%nat)%string.

Definition classify (fuel : nat) (ref : TypeRef) : Completion AnyNode :=
  fromType TS heap fuel (Some ref) tt checker.

(** The nesting depth of the types of [heap]. *)
Definition depth (ref : TypeRef) : nat :=
  match ref with
  | 4 | 5 | 6 | 8 | 9 | 11 | 16 | 18 | 19 | 21 | 23 => 1
  | 24 => 2
  | _ => 0
  end%nat.

(** [interface Knot { self: Knot }]: the type 15 in a heap of its own, where
    the member [self] has the type 15 again. *)
Definition knot (ref : TypeRef) : Type_ :=
  objectType Anonymous 0%nat [sym_self] [].

End Example.

(** ** Further notions for the properties of the source *)

(** Where [optional] stands in a node: [placed true] allows it at the root,
    as the node of a member, [placed false] does not; below the root it is
    allowed as an element of a [tuple] and as a value of an [object]
    only, and never around another [optional]. *)
Fixpoint placed (member : bool) (node : AnyNode) {struct node} : bool :=
  match node with
  | Core.optional inner => member && placed false inner
  | Core.array element | Core.set element => placed false element
  | Core.map key value | Core.record key value => placed false key && placed false value
  | Core.tuple elements => forallb (placed true) elements
  | Core.object shape => forallb (fun entry => placed true (snd entry)) shape
  | Core.func arguments return_ => forallb (placed false) arguments && placed false return_
  | Core.union nodes | Core.intersection nodes => forallb (placed false) nodes
  | _ => true
  end.

Definition isFunc (node : AnyNode) : bool :=
  match node with
  | Core.func _ _ => true
  | _ => false
  end.

(** The nodes a step of the dispatch order can return. *)
Definition producedAt (step : Step) (node : AnyNode) : bool :=
  match step, node with
  | IsString, Core.string
  | IsNumber, Core.number
  | IsBoolean, Core.boolean
  | IsUnknown, Core.unknown
  | IsAny, Core.any
  | IsBigInt, Core.bigint
  | IsLiteral, Core.literal _ => true
  | IsObject, (Core.tuple _ | Core.object _ | Core.func _ _) => true
  | IsObject, Core.union nodes => forallb isFunc nodes && (2 <=? List.length nodes)%nat
  | IsObject, Core.intersection [Core.func _ _; Core.object _] => true
  | IsObject, Core.intersection [Core.union nodes; Core.object _] =>
      forallb isFunc nodes && (2 <=? List.length nodes)%nat
  | HasSymbol, (Core.array _ | Core.date | Core.set _ | Core.record _ _ | Core.map _ _) => true
  | IsUnion, Core.union _ => true
  | IsIntersection, Core.intersection _ => true
  | _, _ => false
  end.

(** The value of the property [k] of a JS object. *)
Fixpoint getProperty (o : JsObject) (k : String.string) : option AnyNode :=
  match o with
  | [] => None
  | (k', v) :: rest => if String.eqb k' k then Some v else getProperty rest k
  end.

(** The members the classifier passes over: [length] on a tuple
    reference. *)
Definition skipped (TS : ts) (heap : TypeRef -> Type_) (type : Type_) (property : Symbol)
    : bool :=
  isTupleReference TS heap type && negb (notLength property).

(** A second program, on the symbols and the checker of [Example]: types
    with a member or a parameter of the unsupported type [void], with two
    members of one name, with an optional parameter, with empty digits, an
    enum-like union that carries a symbol, and an object type with the
    symbol [Array]. *)
Module More.

Definition sym_bad := mkSymbol "bad" Example.Property 9%nat.          (* bad: void *)
Definition sym_a2 := mkSymbol "a" Example.Property 1%nat.             (* a: number *)
Definition sym_opt := mkSymbol "x" (1 + Example.Optional) 6%nat.      (* x?: string *)

Definition sig_bad := mkSignature [Example.sym_x; sym_bad] 0%nat.     (* (x: string, bad: void) => number *)
Definition sig_opt := mkSignature [sym_opt] 0%nat.                    (* (x?: string) => number *)

Definition heap (ref : TypeRef) : Type_ :=
  match ref with
  | 30 => Example.objectType Example.Anonymous 0
            [Example.sym_a; sym_bad; Example.sym_self] [Example.sig_f]
  | 31 => Example.objectType 4 7 [Example.sym_0; Example.sym_length; sym_bad] []
  | 32 => Example.objectType Example.Anonymous 0 [Example.sym_a; Example.sym_b; sym_a2] []
  | 33 => Example.objectType Example.Anonymous 0 [] [Example.sig_f; sig_bad]
  | 34 => Example.literalType Example.BigIntLiteral (JsPseudoBigInt (mkPseudoBigInt false ""))
  | 35 => Example.literalType Example.BigIntLiteral (JsPseudoBigInt (mkPseudoBigInt true ""))
  | 36 => mkType Example.Union 0 0 false (JsBoolean false) [] []
            (Some (mkSymbol "Color" 0 100)) true false [2; 3]
  | 37 => Example.objectType Example.Anonymous 0 [] [sig_opt]
  | 38 => mkType Example.Intersection 0 0 false (JsBoolean false) [] [] None false true [0; 5]
  | 39 => mkType Example.Object 4 0 false (JsBoolean false) [Example.sym_length] []
            (Some (mkSymbol "Array" 0 100)) false false []
  | _ => Example.heap ref
  end%nat.

Definition classify (fuel : nat) (ref : TypeRef) : Completion AnyNode :=
  fromType Example.TS heap fuel (Some ref) tt Example.checker.

End More.

(** A third program: the literal types [true] and [false] as the compiler
    builds them, intrinsic types with the flag [BooleanLiteral] that carry
    no [value] and that [isLiteral()], a test for the string, number and
    bigint literal types, rejects; and an object type whose members are
    reported in the order [b], [1], [0]. *)
Module Third.

Definition BooleanLiteral : Z := 512.

Definition heap (ref : TypeRef) : Type_ :=
  match ref with
  | 40 => Example.intrinsic BooleanLiteral                 (* true *)
  | 41 => Example.intrinsic BooleanLiteral                 (* false *)
  | 42 => Example.objectType Example.Anonymous 0
            [Example.sym_b; Example.sym_1; Example.sym_0] []   (* { b?: number, 1?: number, 0: string } *)
  | 43 => mkType Example.Union 0 0 false (JsBoolean false) [] [] None true false [0; 41; 40]
                                                           (* string | true | false, no flag Boolean *)
  | _ => Example.heap ref
  end%nat.

Definition checker : TypeChecker unit :=
  mkTypeChecker unit
    (getTypeOfSymbolAtLocation Example.checker)
    (getReturnTypeOfSignature Example.checker)
    (getTypeArguments Example.checker)
    (fun ref =>
       match ref with
       | 40 => "true"
       | 41 => "false"
       | _ => typeToString Example.checker ref
       end%nat)%string.

Definition classify (fuel : nat) (ref : TypeRef) : Completion AnyNode :=
  fromType Example.TS heap fuel (Some ref) tt checker.

End Third.

(** ** Completions: general facts *)

Lemma bind_Normal_inv {A B : Type} (c : Completion A) (k : A -> Completion B) (b : B) :
  bind c k = Normal b -> exists a, c = Normal a /\ k a = Normal b.
Proof.
  destruct c as [a | e |]; simpl; intros H; try discriminate.
  exists a. split; [reflexivity | exact H].
Qed.

Lemma bind_ext {A B : Type} (c : Completion A) (k k' : A -> Completion B) :
  (forall a, k a = k' a) -> bind c k = bind c k'.
Proof.
  intros H. destruct c; simpl; auto.
Qed.

Lemma bind_assoc {A B C : Type} (c : Completion A) (k : A -> Completion B)
    (h : B -> Completion C) :
  bind (bind c k) h = bind c (fun a => bind (k a) h).
Proof.
  destruct c; reflexivity.
Qed.

Lemma mapM_ext {A B : Type} (f g : A -> Completion B) (xs : list A) :
  (forall x, In x xs -> f x = g x) -> mapM f xs = mapM g xs.
Proof.
  induction xs as [| x rest IH]; simpl; intros H; [reflexivity |].
  rewrite (H x) by (left; reflexivity).
  rewrite IH by (intros y Hy; apply H; right; exact Hy).
  reflexivity.
Qed.

(** [mapM] succeeds exactly when the callback does on every element, with the
    results in the order of the elements. *)
Lemma mapM_Normal_iff {A B : Type} (f : A -> Completion B) (xs : list A) (ys : list B) :
  mapM f xs = Normal ys <-> Forall2 (fun x y => f x = Normal y) xs ys.
Proof.
  revert ys. induction xs as [| x rest IH]; simpl; intros ys.
  - split.
    + intros H. injection H as <-. constructor.
    + intros H. inversion H. reflexivity.
  - split.
    + intros H. apply bind_Normal_inv in H as (y & Hy & H).
      apply bind_Normal_inv in H as (ys' & Hys & H).
      injection H as <-. constructor; [exact Hy | apply IH; exact Hys].
    + intros H. inversion H as [| x' y rest' ys' Hy Hrest]; subst.
      rewrite Hy. simpl. apply IH in Hrest. rewrite Hrest. reflexivity.
Qed.

Lemma mapM_not_OutOfFuel {A B : Type} (f : A -> Completion B) (xs : list A) :
  (forall x, In x xs -> f x <> OutOfFuel) -> mapM f xs <> OutOfFuel.
Proof.
  induction xs as [| x rest IH]; simpl; intros H; [discriminate |].
  destruct (f x) as [y | e |] eqn:Hx; simpl.
  - destruct (mapM f rest) as [ys | e |] eqn:Hrest; simpl; try discriminate.
    exfalso. apply IH; [| reflexivity]. intros z Hz. apply H. right. exact Hz.
  - discriminate.
  - exfalso. apply (H x); [left; reflexivity | exact Hx].
Qed.

(** A thrown value of [mapM] is the thrown value of the callback on one of
    the elements. *)
Lemma mapM_Throw_inv {A B : Type} (f : A -> Completion B) (xs : list A) (e : Thrown) :
  mapM f xs = Throw e -> exists x, In x xs /\ f x = Throw e.
Proof.
  induction xs as [| x rest IH]; simpl; intros H; [discriminate |].
  destruct (f x) as [y | e' |] eqn:Hx; simpl in H; try discriminate.
  - destruct (mapM f rest) as [ys | e' |] eqn:Hrest; simpl in H; try discriminate.
    injection H as ->. destruct (IH eq_refl) as (z & Hz & Hfz).
    exists z. split; [right; exact Hz | exact Hfz].
  - injection H as ->. exists x. split; [left; reflexivity | exact Hx].
Qed.

(** ** The classifier follows the dispatch table *)

Section Refinement.

Context {Node_ : Type}.
Variable TS : ts.
Variable heap : TypeRef -> Type_.
Variable locationNode : Node_.
Variable checker : TypeChecker Node_.

Local Abbreviation classifyAt := (classifyAt TS heap locationNode checker).

Lemma fromType_undefined (fuel : nat) :
  fromType TS heap fuel None locationNode checker = Throw TypeError.
Proof.
  destruct fuel; reflexivity.
Qed.

(** The tuple callback followed by [filter(Boolean)] gives the nodes of the
    members other than [length]. *)
Lemma tuple_callback_filter (classify : option TypeRef -> Completion AnyNode)
    (properties : list Symbol) :
  (tupleTypes <-
     mapM (fun property =>
             if String.eqb (name property) "length" then Normal None
             else
               node <- classify (Some (getTypeOfSymbolAtLocation checker property
                                         locationNode)) ;;
               Normal (Some (if hasSymbolFlag property
                                  (SymbolFlags.Optional (ts_SymbolFlags TS))
                             then Core.optional node else node)))
          properties ;;
   Normal (Core.tuple (filterBoolean tupleTypes)))
  = (elements <- mapM (memberNode TS locationNode checker classify)
                      (filter notLength properties) ;;
     Normal (Core.tuple elements)).
Proof.
  assert (H : forall (k : list AnyNode -> Completion AnyNode),
    (tupleTypes <-
       mapM (fun property =>
               if String.eqb (name property) "length" then Normal None
               else
                 node <- classify (Some (getTypeOfSymbolAtLocation checker property
                                           locationNode)) ;;
                 Normal (Some (if hasSymbolFlag property
                                    (SymbolFlags.Optional (ts_SymbolFlags TS))
                               then Core.optional node else node)))
            properties ;;
     k (filterBoolean tupleTypes))
    = (elements <- mapM (memberNode TS locationNode checker classify)
                        (filter notLength properties) ;;
       k elements)).
  { induction properties as [| property rest IH]; intros k; [reflexivity |].
    simpl. unfold notLength at 1.
    destruct (String.eqb (name property) "length"); simpl.
    - rewrite bind_assoc. simpl in IH. exact (IH k).
    - unfold memberNode at 1, isOptional, typeOfSymbol.
      destruct (classify _) as [node | e |]; simpl; try reflexivity.
      rewrite !bind_assoc. simpl.
      exact (IH (fun elements => k (_ :: elements))). }
  exact (H (fun elements => Normal (Core.tuple elements))).
Qed.

(** [getNodeFromCallSignatures] is the signature converter of 4.2. *)
Lemma getNodeFromCallSignatures_convert (fuel : nat) (callSignatures : list Signature) :
  getNodeFromCallSignatures (fromType TS heap fuel) callSignatures locationNode checker
  = convertSignatures locationNode checker (classifyAt fuel) callSignatures.
Proof.
  unfold getNodeFromCallSignatures.
  destruct callSignatures as [| s1 [| s2 rest]].
  - reflexivity.
  - simpl. unfold signatureNode, typeOfSymbol, classifyAt.
    destruct (mapM _ (getParameters s1)) as [ps | e |]; simpl; try reflexivity.
    destruct (fromType _ _ _ _ _ _) as [r | e |]; reflexivity.
  - change (0 <? List.length (s1 :: s2 :: rest))%nat with true. cbv iota.
    change (convertSignatures locationNode checker (classifyAt fuel) (s1 :: s2 :: rest))
      with (nodes <- mapM (signatureNode locationNode checker (classifyAt fuel))
                          (s1 :: s2 :: rest) ;;
            Normal (Some (Core.union nodes))).
    unfold signatureNode, typeOfSymbol, classifyAt.
    match goal with
    | |- bind ?c _ = bind ?c' _ => change c' with c; destruct c as [nodes | e |] eqn:Hc
    end; simpl; try reflexivity.
    apply mapM_Normal_iff in Hc. apply Forall2_length in Hc. simpl in Hc.
    destruct nodes as [| n1 [| n2 nodes]]; simpl in Hc; try discriminate.
    reflexivity.
Qed.

(** The plain-object path of the source is the combination of 4.1. *)
Lemma plain_object_combine (fuel : nat) (type : Type_) :
  (propertyEntries <-
     mapM (fun property =>
             let propertyType := getTypeOfSymbolAtLocation checker property locationNode in
             node <- fromType TS heap fuel (Some propertyType) locationNode checker ;;
             Normal (name property,
                     if hasSymbolFlag property (SymbolFlags.Optional (ts_SymbolFlags TS))
                     then Core.optional node else node))
          (getProperties type) ;;
   functionNode <-
     getNodeFromCallSignatures (fromType TS heap fuel) (getCallSignatures type)
       locationNode checker ;;
   match functionNode with
   | Some functionNode =>
       if (List.length propertyEntries =? 0)%nat then Normal functionNode
       else Normal (Core.intersection
                      [functionNode; Core.object (fromEntries propertyEntries)])
   | None => Normal (Core.object (fromEntries propertyEntries))
   end)
  = plainObjectRule TS locationNode checker (classifyAt fuel) type.
Proof.
  unfold plainObjectRule.
  rewrite getNodeFromCallSignatures_convert.
  rewrite (mapM_ext _ (propertyEntry TS locationNode checker (classifyAt fuel))).
  2:{ intros property _. unfold propertyEntry, memberNode, isOptional, typeOfSymbol, classifyAt.
      destruct (fromType _ _ _ _ _ _); reflexivity. }
  apply bind_ext. intros propertyMap. apply bind_ext. intros [node |].
  - destruct propertyMap; reflexivity.
  - reflexivity.
Qed.

(** One call of the classifier applies the rule of the first step that
    matches. *)
Lemma fromType_rule (fuel : nat) (ref : TypeRef) :
  fromType TS heap (S fuel) (Some ref) locationNode checker
  = rule TS heap locationNode checker (classifyAt fuel) ref (dispatch TS (heap ref)).
Proof.
  unfold dispatch, priority.
  change (fromType TS heap (S fuel) (Some ref) locationNode checker) with
    (let type := heap ref in
     if hasFlag type (TypeFlags.String (ts_TypeFlags TS)) then Normal Core.string
     else if hasFlag type (TypeFlags.Number (ts_TypeFlags TS)) then Normal Core.number
     else if hasFlag type (TypeFlags.Boolean (ts_TypeFlags TS)) then Normal Core.boolean
     else if hasFlag type (TypeFlags.Unknown (ts_TypeFlags TS)) then Normal Core.unknown
     else if isLiteral type then literalRule type
     else if hasFlag type (TypeFlags.Any (ts_TypeFlags TS)) then Normal Core.any
     else if hasFlag type (TypeFlags.BigInt (ts_TypeFlags TS)) then Normal Core.bigint
     else if hasFlag type (TypeFlags.Object (ts_TypeFlags TS)) then
       if isTupleReference TS heap type then
         tupleTypes <-
           mapM (fun property =>
                   if String.eqb (name property) "length" then Normal None
                   else
                     node <- classifyAt fuel
                               (Some (getTypeOfSymbolAtLocation checker property
                                        locationNode)) ;;
                     Normal (Some (if hasSymbolFlag property
                                        (SymbolFlags.Optional (ts_SymbolFlags TS))
                                   then Core.optional node else node)))
                (getProperties type) ;;
         Normal (Core.tuple (filterBoolean tupleTypes))
       else
         propertyEntries <-
           mapM (fun property =>
                   let propertyType :=
                     getTypeOfSymbolAtLocation checker property locationNode in
                   node <- fromType TS heap fuel (Some propertyType) locationNode checker ;;
                   Normal (name property,
                           if hasSymbolFlag property
                                (SymbolFlags.Optional (ts_SymbolFlags TS))
                           then Core.optional node else node))
                (getProperties type) ;;
         functionNode <-
           getNodeFromCallSignatures (fromType TS heap fuel) (getCallSignatures type)
             locationNode checker ;;
         match functionNode with
         | Some functionNode =>
             if (List.length propertyEntries =? 0)%nat then Normal functionNode
             else Normal (Core.intersection
                            [functionNode; Core.object (fromEntries propertyEntries)])
         | None => Normal (Core.object (fromEntries propertyEntries))
         end
     else
       match getSymbol type with
       | Some symbol => namedGenericRule checker (classifyAt fuel) ref symbol
       | None =>
           if isUnion type then constituentsRule (classifyAt fuel) Core.union type
           else if isIntersection type
                then constituentsRule (classifyAt fuel) Core.intersection type
                else unknownType checker ref
       end).
  cbv zeta. cbn [find matches].
  destruct (hasFlag _ (TypeFlags.String _)); [reflexivity |].
  destruct (hasFlag _ (TypeFlags.Number _)); [reflexivity |].
  destruct (hasFlag _ (TypeFlags.Boolean _)); [reflexivity |].
  destruct (hasFlag _ (TypeFlags.Unknown _)); [reflexivity |].
  destruct (isLiteral _); [reflexivity |].
  destruct (hasFlag _ (TypeFlags.Any _)); [reflexivity |].
  destruct (hasFlag _ (TypeFlags.BigInt _)); [reflexivity |].
  destruct (hasFlag _ (TypeFlags.Object _)).
  - cbn [rule]. unfold compositeObjectRule.
    destruct (isTupleReference TS heap (heap ref)).
    + rewrite tuple_callback_filter. reflexivity.
    + rewrite plain_object_combine. reflexivity.
  - destruct (getSymbol (heap ref)) as [symbol |] eqn:Hsym.
    + cbn [rule]. rewrite Hsym. reflexivity.
    + destruct (isUnion _); [reflexivity |].
      destruct (isIntersection _); reflexivity.
Qed.

End Refinement.

(** ** Objects from entries *)

Lemma hasProperty_In (o : JsObject) (k : String.string) :
  hasProperty o k = true <-> In k (List.map fst o).
Proof.
  unfold hasProperty. rewrite existsb_exists, in_map_iff. split.
  - intros (entry & Hin & Heq). apply String.eqb_eq in Heq. exists entry. auto.
  - intros (entry & Heq & Hin). exists entry. split; [exact Hin |].
    apply String.eqb_eq. exact Heq.
Qed.

Lemma arrayIndex_inj (k k' : String.string) (i : Z) :
  arrayIndex k = Some i -> arrayIndex k' = Some i -> k = k'.
Proof.
  assert (H : forall q, arrayIndex q = Some i -> q = decimalDigits (Z.to_N i)).
  { intros q. unfold arrayIndex.
    destruct (digits 10 (list_ascii_of_string q)) as [n |]; [| discriminate].
    destruct (n <? 2 ^ 32 - 1); [| discriminate].
    destruct (String.eqb_spec (decimalDigits (Z.to_N n)) q) as [Heq | _]; [| discriminate].
    simpl. intros Hn. injection Hn as <-. symmetry. exact Heq. }
  intros Hk Hk'. rewrite (H k Hk), (H k' Hk'). reflexivity.
Qed.

(** A new property among the indexed ones takes its place by its index; a
    new property of another name is the last. *)
Lemma addProperty_ordered (indexed others : JsObject) (k : String.string) (v : AnyNode) :
  StronglySorted indexBefore indexed ->
  forallb isIndexed indexed = true ->
  forallb (fun entry => negb (isIndexed entry)) others = true ->
  ~ In k (List.map fst indexed) ->
  if isIndexed (k, v) then
    exists indexed',
      addProperty (indexed ++ others) k v = indexed' ++ others
      /\ Permutation indexed' ((k, v) :: indexed)
      /\ StronglySorted indexBefore indexed'
      /\ forallb isIndexed indexed' = true
  else addProperty (indexed ++ others) k v = indexed ++ others ++ [(k, v)].
Proof.
  intros Hsorted Hindexed Hothers Hfresh.
  unfold isIndexed at 1. cbn [fst].
  destruct (arrayIndex k) as [i |] eqn:Hk.
  - induction indexed as [| [k' v'] rest IH]; simpl.
    + exists [(k, v)]. split; [| split; [reflexivity | split]].
      * destruct others as [| [k' v'] others']; simpl; [reflexivity |].
        simpl in Hothers. apply andb_true_iff in Hothers as [Hk' _].
        unfold isIndexed in Hk'. cbn [fst] in Hk'. unfold precedes. rewrite Hk.
        destruct (arrayIndex k'); [discriminate | reflexivity].
      * repeat constructor.
      * simpl. unfold isIndexed. cbn [fst]. rewrite Hk. reflexivity.
    + simpl in Hindexed. apply andb_true_iff in Hindexed as [Hk' Hrest].
      unfold isIndexed in Hk'. cbn [fst] in Hk'.
      destruct (arrayIndex k') as [j |] eqn:Hj; [| discriminate].
      unfold precedes. rewrite Hk, Hj.
      destruct (Z.ltb_spec i j) as [Hlt | Hge].
      * exists ((k, v) :: (k', v') :: rest). split; [reflexivity |].
        split; [reflexivity |]. split.
        -- constructor; [exact Hsorted |].
           apply StronglySorted_inv in Hsorted as [_ Hall].
           constructor.
           ++ unfold indexBefore. cbn [fst]. rewrite Hk, Hj. exact Hlt.
           ++ rewrite Forall_forall in *. intros entry Hin. specialize (Hall entry Hin).
              unfold indexBefore in *. cbn [fst] in *. rewrite Hk. rewrite Hj in Hall.
              destruct (arrayIndex (fst entry)); [lia | exact Hall].
        -- simpl. unfold isIndexed at 1 2. cbn [fst]. rewrite Hk, Hj. exact Hrest.
      * assert (Hne : i <> j).
        { intros ->. apply Hfresh. left. simpl. eapply arrayIndex_inj; eassumption. }
        apply StronglySorted_inv in Hsorted as [Hsorted Hall].
        destruct (IH Hsorted Hrest) as (indexed' & Hadd & Hperm & Hsorted' & Hindexed').
        { intros Hin. apply Hfresh. right. exact Hin. }
        exists ((k', v') :: indexed'). split; [rewrite Hadd; reflexivity |].
        split; [rewrite Hperm; apply perm_swap |]. split.
        -- constructor; [exact Hsorted' |].
           assert (Hall' : Forall (indexBefore (k', v')) ((k, v) :: rest)).
           { constructor; [| exact Hall].
             unfold indexBefore. cbn [fst]. rewrite Hk, Hj. lia. }
           rewrite Forall_forall in *. intros entry Hin. apply Hall'.
           eapply Permutation_in; eassumption.
        -- simpl. unfold isIndexed at 1. cbn [fst]. rewrite Hj. exact Hindexed'.
  - clear Hsorted Hfresh.
    assert (Hnever : forall k', precedes k k' = false).
    { intros k'. unfold precedes. rewrite Hk. reflexivity. }
    rewrite app_assoc. generalize (indexed ++ others). intros o.
    induction o as [| [k' v'] rest IH]; simpl; [reflexivity |].
    rewrite Hnever, IH. reflexivity.
Qed.

Lemma NoDup_names_step (o o' : JsObject) (k : String.string) (v : AnyNode)
    (rest : list String.string) :
  Permutation o' ((k, v) :: o) ->
  NoDup (List.map fst o ++ k :: rest) ->
  NoDup (List.map fst o' ++ rest).
Proof.
  intros Hperm. apply Permutation_NoDup.
  apply Permutation_trans with (k :: List.map fst o ++ rest).
  - apply Permutation_sym, Permutation_middle.
  - change (k :: List.map fst o ++ rest) with (List.map fst ((k, v) :: o) ++ rest).
    apply Permutation_app_tail, Permutation_map, Permutation_sym, Hperm.
Qed.

Lemma fromEntries_ordered_from (entries indexed others : JsObject) :
  StronglySorted indexBefore indexed ->
  forallb isIndexed indexed = true ->
  forallb (fun entry => negb (isIndexed entry)) others = true ->
  NoDup (List.map fst (indexed ++ others) ++ List.map fst entries) ->
  exists indexed',
    fold_left (fun o e => defineProperty o (fst e) (snd e)) entries (indexed ++ others)
    = indexed' ++ others ++ filter (fun entry => negb (isIndexed entry)) entries
    /\ Permutation indexed' (indexed ++ filter isIndexed entries)
    /\ StronglySorted indexBefore indexed'.
Proof.
  revert indexed others.
  induction entries as [| [k v] rest IH]; intros indexed others Hsorted Hindexed Hothers Hdup.
  - exists indexed. simpl. rewrite !app_nil_r. repeat split; [reflexivity | exact Hsorted].
  - cbn [fold_left fst snd]. cbn [List.map fst] in Hdup.
    assert (Hfresh : ~ In k (List.map fst (indexed ++ others))).
    { apply NoDup_remove_2 in Hdup. intros Hin. apply Hdup.
      apply in_or_app. left. exact Hin. }
    assert (Hfresh' : ~ In k (List.map fst indexed)).
    { intros Hin. apply Hfresh. rewrite map_app. apply in_or_app. left. exact Hin. }
    unfold defineProperty at 2.
    replace (hasProperty (indexed ++ others) k) with false.
    2:{ symmetry. apply not_true_is_false. intros H. apply hasProperty_In in H. auto. }
    pose proof (addProperty_ordered indexed others k v Hsorted Hindexed Hothers Hfresh') as Hadd.
    cbn [filter]. destruct (isIndexed (k, v)) eqn:Hk; cbn [negb].
    + destruct Hadd as (indexed1 & Hadd & Hperm & Hsorted1 & Hindexed1).
      rewrite Hadd.
      destruct (IH indexed1 others Hsorted1 Hindexed1 Hothers) as (indexed' & Hfold & Hperm' & Hs').
      { apply (NoDup_names_step (indexed ++ others) _ k v); [| exact Hdup].
        change ((k, v) :: indexed ++ others) with (((k, v) :: indexed) ++ others).
        apply Permutation_app_tail, Hperm. }
      exists indexed'. split; [exact Hfold |]. split; [| exact Hs'].
      rewrite Hperm', Hperm. apply Permutation_middle.
    + rewrite Hadd.
      destruct (IH indexed (others ++ [(k, v)]) Hsorted Hindexed) as (indexed' & Hfold & Hperm' & Hs').
      { rewrite forallb_app, Hothers. simpl. rewrite Hk. reflexivity. }
      { apply (NoDup_names_step (indexed ++ others) _ k v); [| exact Hdup].
        rewrite app_assoc. apply Permutation_sym, Permutation_cons_append. }
      exists indexed'. split; [| split; [exact Hperm' | exact Hs']].
      rewrite Hfold, <- !app_assoc. reflexivity.
Qed.

(** Members with distinct names make an object with one property each: the
    entries whose name is an array index by ascending index, then the other
    entries in their order. *)
Lemma fromEntries_ordered (entries : JsObject) :
  NoDup (List.map fst entries) ->
  exists indexed,
    Permutation indexed (filter isIndexed entries)
    /\ StronglySorted indexBefore indexed
    /\ fromEntries entries
       = indexed ++ filter (fun entry => negb (isIndexed entry)) entries.
Proof.
  intros H.
  destruct (fromEntries_ordered_from entries [] [] (SSorted_nil _) eq_refl eq_refl H)
    as (indexed & Hfold & Hperm & Hsorted).
  exists indexed. split; [exact Hperm |]. split; [exact Hsorted | exact Hfold].
Qed.

(** ** The rules as relations *)

Section Readings.

Context {Node_ : Type}.
Variable TS : ts.
Variable heap : TypeRef -> Type_.
Variable locationNode : Node_.
Variable checker : TypeChecker Node_.

Local Abbreviation classify := (classifyAt TS heap locationNode checker).
Local Abbreviation run fuel ref := (fromType TS heap fuel (Some ref) locationNode checker).

Lemma signatureNode_yields (fuel : nat) (signature : Signature) (node : AnyNode) :
  signatureNode locationNode checker (classify fuel) signature = Normal node
  <-> signatureYields locationNode checker (classify fuel) signature node.
Proof.
  unfold signatureNode, signatureYields. split.
  - intros H. apply bind_Normal_inv in H as (argumentNodes & Hargs & H).
    apply bind_Normal_inv in H as (returnNode & Hret & H).
    injection H as <-. exists argumentNodes, returnNode.
    split; [apply mapM_Normal_iff; exact Hargs | split; [exact Hret | reflexivity]].
  - intros (argumentNodes & returnNode & Hargs & Hret & ->).
    apply mapM_Normal_iff in Hargs. unfold parameterYields in Hargs.
    rewrite Hargs. simpl. rewrite Hret. reflexivity.
Qed.

Lemma memberNode_yields (fuel : nat) (property : Symbol) (node : AnyNode) :
  memberNode TS locationNode checker (classify fuel) property = Normal node
  <-> memberYields TS locationNode checker (classify fuel) property node.
Proof.
  unfold memberNode, memberYields. split.
  - intros H. apply bind_Normal_inv in H as (inner & Hinner & H).
    injection H as <-. exists inner. split; [exact Hinner | reflexivity].
  - intros (inner & Hinner & ->). rewrite Hinner. reflexivity.
Qed.

Lemma propertyEntry_yields (fuel : nat) (property : Symbol)
    (entry : String.string * AnyNode) :
  propertyEntry TS locationNode checker (classify fuel) property = Normal entry
  <-> propertyYields TS locationNode checker (classify fuel) property entry.
Proof.
  unfold propertyEntry, propertyYields. split.
  - intros H. apply bind_Normal_inv in H as (node & Hnode & H).
    injection H as <-. split; [reflexivity | apply memberNode_yields; exact Hnode].
  - intros [Hname Hnode]. apply memberNode_yields in Hnode. rewrite Hnode.
    simpl. rewrite <- Hname. destruct entry; reflexivity.
Qed.

Lemma propertyYields_names (classify : option TypeRef -> Completion AnyNode)
    (properties : list Symbol) (propertyMap : list (String.string * AnyNode)) :
  Forall2 (propertyYields TS locationNode checker classify) properties propertyMap ->
  List.map fst propertyMap = List.map name properties.
Proof.
  induction 1 as [| property entry properties propertyMap [Hname _] _ IH]; simpl.
  - reflexivity.
  - rewrite Hname, IH. reflexivity.
Qed.

Lemma Forall2_iff {A B : Type} (P Q : A -> B -> Prop) (xs : list A) (ys : list B) :
  (forall x y, P x y <-> Q x y) -> Forall2 P xs ys <-> Forall2 Q xs ys.
Proof.
  intros H. split; intros HF; induction HF; constructor; auto; apply H; assumption.
Qed.




End Readings.

(** ** Digit strings and [BigInt] *)

Lemma list_ascii_of_string_app (s1 s2 : String.string) :
  list_ascii_of_string (s1 ++ s2) = list_ascii_of_string s1 ++ list_ascii_of_string s2.
Proof.
  induction s1 as [| c s1 IH]; simpl; [reflexivity | rewrite IH; reflexivity].
Qed.

Lemma digit_code (c : ascii) :
  isDecimalDigit c = true -> (48 <= nat_of_ascii c <= 57)%nat.
Proof.
  unfold isDecimalDigit. intros H. apply andb_true_iff in H as [H1 H2].
  apply Nat.leb_le in H1, H2. lia.
Qed.

Lemma code_neq (c d : ascii) : nat_of_ascii c <> nat_of_ascii d -> Ascii.eqb c d = false.
Proof.
  intros H. apply Ascii.eqb_neq. intros ->. apply H. reflexivity.
Qed.

Ltac code_differs :=
  match goal with
  | |- _ <> nat_of_ascii ?d =>
      let n := eval vm_compute in (nat_of_ascii d) in
      change (nat_of_ascii d) with n; lia
  end.

(** A character of one byte that is no white space: a digit or a sign. *)
Lemma plain_not_whitespace (c : ascii) :
  (33 <= nat_of_ascii c < 128)%nat ->
  isWhiteSpace c = false
  /\ (forall b, isWhiteSpace2 c b = false)
  /\ (forall b, isWhiteSpace2 b c = false)
  /\ (forall a b, isWhiteSpace3 c a b = false)
  /\ (forall a b, isWhiteSpace3 a b c = false).
Proof.
  intros H. unfold isWhiteSpace, isWhiteSpace2, isWhiteSpace3. cbv zeta.
  repeat split; intros;
    repeat match goal with
           | |- context [(nat_of_ascii c =? ?m)%nat] =>
               replace (nat_of_ascii c =? m)%nat with false
                 by (symmetry; apply Nat.eqb_neq; lia)
           | |- context [(?m <=? nat_of_ascii c)%nat] =>
               replace (m <=? nat_of_ascii c)%nat with false
                 by (symmetry; apply Nat.leb_gt; lia)
           | |- context [(nat_of_ascii c <=? ?m)%nat] =>
               replace (nat_of_ascii c <=? m)%nat with false
                 by (symmetry; apply Nat.leb_gt; lia)
           end;
    rewrite ?andb_false_r, ?andb_false_l, ?orb_false_r; reflexivity.
Qed.

Lemma digit_plain (c : ascii) : isDecimalDigit c = true -> (33 <= nat_of_ascii c < 128)%nat.
Proof.
  intros H. apply digit_code in H. lia.
Qed.

Lemma digit_no_prefix (c : ascii) : isDecimalDigit c = true -> radixOfPrefix c = None.
Proof.
  intros H. apply digit_code in H. unfold radixOfPrefix.
  rewrite !code_neq by code_differs. reflexivity.
Qed.

Lemma digit_no_sign (c : ascii) :
  isDecimalDigit c = true -> Ascii.eqb c "-" = false /\ Ascii.eqb c "+" = false.
Proof.
  intros H. apply digit_code in H. split; apply code_neq; code_differs.
Qed.

Lemma digitValue_decimal (c : ascii) :
  isDecimalDigit c = true -> digitValue 10 c = Some (Z.of_nat (nat_of_ascii c) - 48).
Proof.
  intros H. apply digit_code in H. unfold digitValue.
  replace (48 <=? Z.of_nat (nat_of_ascii c)) with true by (symmetry; apply Z.leb_le; lia).
  replace (Z.of_nat (nat_of_ascii c) <=? 57) with true by (symmetry; apply Z.leb_le; lia).
  simpl. replace (Z.of_nat (nat_of_ascii c) - 48 <? 10) with true
    by (symmetry; apply Z.ltb_lt; lia).
  reflexivity.
Qed.

(** Reading the digits from the left computes the weighted sum. *)
Lemma digitsFrom_decimal (cs : list ascii) (acc : Z) :
  forallb isDecimalDigit cs = true ->
  digitsFrom 10 acc cs = Some (acc * 10 ^ Z.of_nat (List.length cs) + decimalValue cs).
Proof.
  revert acc. induction cs as [| c rest IH]; intros acc H.
  - simpl. f_equal. lia.
  - simpl in H. apply andb_true_iff in H as [Hc Hrest].
    cbn [digitsFrom]. rewrite (digitValue_decimal c Hc), (IH _ Hrest).
    f_equal. cbn [decimalValue List.length]. rewrite Nat2Z.inj_succ, Z.pow_succ_r by lia.
    ring.
Qed.

Lemma trimStart_none (c : ascii) (rest : list ascii) :
  (33 <= nat_of_ascii c < 128)%nat -> trimStart (c :: rest) = c :: rest.
Proof.
  intros H. destruct (plain_not_whitespace c H) as (H1 & H2 & _ & H3 & _).
  cbn [trimStart]. rewrite H1.
  destruct rest as [| b rest]; [reflexivity |]. rewrite H2.
  destruct rest as [| a rest]; [reflexivity |]. rewrite H3. reflexivity.
Qed.

Lemma trimEndReversed_none (c : ascii) (rest : list ascii) :
  (33 <= nat_of_ascii c < 128)%nat -> trimEndReversed (c :: rest) = c :: rest.
Proof.
  intros H. destruct (plain_not_whitespace c H) as (H1 & _ & H2 & _ & H3).
  cbn [trimEndReversed]. rewrite H1.
  destruct rest as [| b rest]; [reflexivity |]. rewrite H2.
  destruct rest as [| a rest]; [reflexivity |]. rewrite H3. reflexivity.
Qed.

(** Nothing is trimmed from a string that begins and ends with a digit or a
    sign. *)
Lemma trim_none (cs : list ascii) :
  (forall c, In c cs -> (33 <= nat_of_ascii c < 128)%nat) -> trim cs = cs.
Proof.
  intros H. unfold trim.
  destruct cs as [| c rest]; [reflexivity |].
  rewrite (trimStart_none c rest) by (apply H; left; reflexivity).
  destruct (rev (c :: rest)) as [| d rest'] eqn:Hrev.
  - apply (f_equal (@rev ascii)) in Hrev. rewrite rev_involutive in Hrev.
    discriminate Hrev.
  - rewrite trimEndReversed_none.
    + rewrite <- Hrev. apply rev_involutive.
    + apply H. apply in_rev. rewrite Hrev. left. reflexivity.
Qed.

Lemma digits_decimal (cs : list ascii) :
  cs <> [] -> forallb isDecimalDigit cs = true -> digits 10 cs = Some (decimalValue cs).
Proof.
  intros Hne H. destruct cs as [| c rest]; [contradiction |].
  unfold digits. rewrite digitsFrom_decimal by exact H. f_equal; lia.
Qed.

Lemma uint_length (d : Decimal.uint) :
  Z.of_nat (List.length (list_ascii_of_string (DecimalString.NilEmpty.string_of_uint d)))
  = Z.of_N (DecimalPos.Unsigned.usize d).
Proof.
  induction d; cbn [DecimalString.NilEmpty.string_of_uint list_ascii_of_string List.length
                    DecimalPos.Unsigned.usize];
    try reflexivity; rewrite Nat2Z.inj_succ, N2Z.inj_succ, IHd; reflexivity.
Qed.

Lemma uint_digits (d : Decimal.uint) :
  forallb isDecimalDigit (list_ascii_of_string (DecimalString.NilEmpty.string_of_uint d)) = true.
Proof.
  induction d; cbn [DecimalString.NilEmpty.string_of_uint list_ascii_of_string forallb];
    try reflexivity; rewrite IHd; reflexivity.
Qed.

(** The weighted sum of the printed digits is the value of the numeral. *)
Lemma uint_value (d : Decimal.uint) :
  decimalValue (list_ascii_of_string (DecimalString.NilEmpty.string_of_uint d))
  = Z.of_N (DecimalPos.Unsigned.of_lu (Decimal.rev d)).
Proof.
  induction d;
    cbn [DecimalString.NilEmpty.string_of_uint list_ascii_of_string decimalValue];
    try reflexivity;
    unfold Decimal.rev; cbn [Decimal.revapp];
    rewrite DecimalPos.Unsigned.of_lu_revapp, N2Z.inj_add, N2Z.inj_mul, N2Z.inj_pow,
      uint_length, IHd;
    cbn [DecimalPos.Unsigned.of_lu];
    simpl (Z.of_N _); simpl (Z.of_nat _); lia.
Qed.

Lemma decimalDigits_printed (n : N) :
  decimalDigits n = DecimalString.NilEmpty.string_of_uint (N.to_uint n)
  /\ N.to_uint n <> Decimal.Nil.
Proof.
  unfold decimalDigits. destruct n as [| p]; [split; [reflexivity | discriminate] |].
  simpl. pose proof (DecimalPos.Unsigned.to_uint_nonnil p) as Hp.
  split; [| exact Hp]. destruct (Pos.to_uint p); [contradiction | reflexivity ..].
Qed.

Lemma decimalDigits_value (n : N) :
  decimalValue (list_ascii_of_string (decimalDigits n)) = Z.of_N n.
Proof.
  rewrite (proj1 (decimalDigits_printed n)), uint_value, <- DecimalPos.Unsigned.of_uint_alt.
  change (Pos.of_uint (N.to_uint n)) with (N.of_uint (N.to_uint n)).
  rewrite DecimalN.Unsigned.of_to. reflexivity.
Qed.

Lemma decimalDigits_isDigitString (n : N) : isDigitString (decimalDigits n) = true.
Proof.
  destruct (decimalDigits_printed n) as [-> Hnonnil]. unfold isDigitString.
  pose proof (uint_digits (N.to_uint n)) as Hdigits.
  destruct (N.to_uint n); [contradiction | exact Hdigits ..].
Qed.

(** The sign and the digits of an integer denote the integer. *)
Lemma signedValue_pseudoBigIntOf (z : Z) : signedValue (pseudoBigIntOf z) = z.
Proof.
  unfold signedValue, pseudoBigIntOf. cbn [negative base10Value].
  rewrite decimalDigits_value, N2Z.inj_abs_N.
  destruct (Z.ltb_spec z 0); lia.
Qed.

(** [BigInt] on the string the source builds from a sign and a digit
    string. *)
Lemma BigInt_PseudoBigInt (p : PseudoBigInt) :
  isDigitString (base10Value p) = true ->
  BigInt ((if negative p then "-" else "") ++ base10Value p) = Normal (signedValue p).
Proof.
  unfold isDigitString, signedValue, BigInt, StringToBigInt.
  destruct (list_ascii_of_string (base10Value p)) as [| c rest] eqn:Hcs; [discriminate |].
  intros Hdigits.
  assert (Hall : forall d, In d (c :: rest) -> isDecimalDigit d = true).
  { apply forallb_forall. exact Hdigits. }
  assert (Hc : isDecimalDigit c = true) by (apply Hall; left; reflexivity).
  rewrite list_ascii_of_string_app, Hcs.
  destruct (negative p); cbn [list_ascii_of_string app].
  - rewrite trim_none.
    2:{ intros d [<- | Hd]; [| apply digit_plain, Hall, Hd].
        change (nat_of_ascii "-") with 45%nat. lia. }
    cbv zeta. unfold nonDecimalLiteral.
    replace (Ascii.eqb "-" "0") with false by reflexivity.
    replace (Ascii.eqb "-" "-") with true by reflexivity.
    rewrite digits_decimal by (discriminate || exact Hdigits). reflexivity.
  - rewrite trim_none by (intros d Hd; apply digit_plain, Hall, Hd).
    cbv zeta.
    assert (Hnd : nonDecimalLiteral (c :: rest) = None).
    { unfold nonDecimalLiteral. destruct rest as [| c' rest']; [reflexivity |].
      rewrite (digit_no_prefix c') by (apply Hall; right; left; reflexivity).
      destruct (Ascii.eqb c "0"); reflexivity. }
    rewrite Hnd. destruct (digit_no_sign c Hc) as [-> ->].
    rewrite digits_decimal by (discriminate || exact Hdigits). reflexivity.
Qed.

(** ** The dispatch *)

Lemma find_first {A : Type} (f : A -> bool) (before after : list A) (x : A) :
  Forall (fun y => f y = false) before -> f x = true ->
  find f (before ++ x :: after) = Some x.
Proof.
  intros Hbefore Hx. induction Hbefore as [| y before Hy _ IH]; simpl.
  - rewrite Hx. reflexivity.
  - rewrite Hy. exact IH.
Qed.

Lemma find_none {A : Type} (f : A -> bool) (xs : list A) :
  (forall x, In x xs -> f x = false) -> find f xs = None.
Proof.
  induction xs as [| x rest IH]; simpl; intros H; [reflexivity |].
  rewrite (H x) by (left; reflexivity). apply IH. intros y Hy. apply H. right. exact Hy.
Qed.

Lemma firstMatch_dispatch (TS : ts) (type : Type_) (step : Step) :
  firstMatch TS type step -> dispatch TS type = Some step.
Proof.
  intros (before & after & Hsplit & Hbefore & Hstep).
  unfold dispatch. rewrite Hsplit. apply find_first; assumption.
Qed.


(** ** Failure and termination *)

Lemma bind_Throw_inv {A B : Type} (c : Completion A) (k : A -> Completion B) (e : Thrown) :
  bind c k = Throw e -> c = Throw e \/ exists a, c = Normal a /\ k a = Throw e.
Proof.
  destruct c as [a | e' |]; simpl; intros H; try discriminate.
  - right. exists a. split; [reflexivity | exact H].
  - left. injection H as <-. reflexivity.
Qed.

Lemma bind_not_OutOfFuel {A B : Type} (c : Completion A) (k : A -> Completion B) :
  c <> OutOfFuel -> (forall a, k a <> OutOfFuel) -> bind c k <> OutOfFuel.
Proof.
  intros Hc Hk. destruct c as [a | e |]; simpl; [apply Hk | discriminate |].
  exfalso. apply Hc. reflexivity.
Qed.

Lemma dispatch_matches (TS : ts) (type : Type_) (step : Step) :
  dispatch TS type = Some step -> matches TS type step = true.
Proof.
  intros H. apply find_some in H. apply H.
Qed.

Section Failure.

Context {Node_ : Type}.
Variable TS : ts.
Variable heap : TypeRef -> Type_.
Variable locationNode : Node_.
Variable checker : TypeChecker Node_.

Local Abbreviation classify := (classifyAt TS heap locationNode checker).
Local Abbreviation run fuel ref := (fromType TS heap fuel (Some ref) locationNode checker).
Local Abbreviation within := (constituents heap locationNode checker).
Local Abbreviation nested := (reaches heap locationNode checker).
Local Abbreviation fails := (failsAt TS heap checker).

Lemma member_constituent (ref : TypeRef) (property : Symbol) :
  In property (getProperties (heap ref)) ->
  In (typeOfSymbol locationNode checker property) (within ref).
Proof.
  intros H. unfold constituents. apply in_or_app. left. apply in_map. exact H.
Qed.

Lemma parameter_constituent (ref : TypeRef) (signature : Signature) (parameter : Symbol) :
  In signature (getCallSignatures (heap ref)) ->
  In parameter (getParameters signature) ->
  In (typeOfSymbol locationNode checker parameter) (within ref).
Proof.
  intros Hs Hp. unfold constituents. apply in_or_app. right. apply in_or_app. left.
  apply in_flat_map. exists signature. split; [exact Hs |].
  apply in_or_app. left. apply in_map. exact Hp.
Qed.

Lemma return_constituent (ref : TypeRef) (signature : Signature) :
  In signature (getCallSignatures (heap ref)) ->
  In (getReturnTypeOfSignature checker signature) (within ref).
Proof.
  intros Hs. unfold constituents. apply in_or_app. right. apply in_or_app. left.
  apply in_flat_map. exists signature. split; [exact Hs |].
  apply in_or_app. right. left. reflexivity.
Qed.

Lemma argument_constituent (ref argument : TypeRef) :
  In argument (getTypeArguments checker ref) -> In argument (within ref).
Proof.
  intros H. unfold constituents. do 2 (apply in_or_app; right).
  apply in_or_app. left. exact H.
Qed.

Lemma type_constituent (ref constituent : TypeRef) :
  In constituent (types (heap ref)) -> In constituent (within ref).
Proof.
  intros H. unfold constituents. do 3 (apply in_or_app; right). exact H.
Qed.

(** Where the failure of a rule comes from. *)
Section Through.

Variable fuel : nat.
Variable ref : TypeRef.
Variable e : Thrown.

Local Abbreviation innerFailure :=
  (innerFailure TS heap locationNode checker fuel ref e).


Lemma memberNode_Throw (property : Symbol) :
  In property (getProperties (heap ref)) ->
  memberNode TS locationNode checker (classify fuel) property = Throw e ->
  innerFailure.
Proof.
  unfold memberNode. intros Hin H.
  apply bind_Throw_inv in H as [H | (node & _ & H)]; [| discriminate].
  eexists. split; [apply member_constituent; exact Hin | exact H].
Qed.

Lemma signatureNode_Throw (signature : Signature) :
  In signature (getCallSignatures (heap ref)) ->
  signatureNode locationNode checker (classify fuel) signature = Throw e ->
  innerFailure.
Proof.
  unfold signatureNode. intros Hin H.
  apply bind_Throw_inv in H as [H | (argumentNodes & _ & H)].
  - apply mapM_Throw_inv in H as (parameter & Hp & H).
    eexists. split; [eapply parameter_constituent; eassumption | exact H].
  - apply bind_Throw_inv in H as [H | (returnNode & _ & H)]; [| discriminate].
    eexists. split; [apply return_constituent; exact Hin | exact H].
Qed.

Lemma convertSignatures_Throw :
  convertSignatures locationNode checker (classify fuel) (getCallSignatures (heap ref))
  = Throw e ->
  innerFailure.
Proof.
  intros H.
  assert (Hmap : exists signature,
             In signature (getCallSignatures (heap ref))
             /\ signatureNode locationNode checker (classify fuel) signature = Throw e).
  { destruct (getCallSignatures (heap ref)) as [| s1 [| s2 rest]].
    - discriminate.
    - simpl in H. apply bind_Throw_inv in H as [H | (node & _ & H)]; [| discriminate].
      exists s1. split; [left; reflexivity | exact H].
    - apply bind_Throw_inv in H as [H | (nodes & _ & H)]; [| discriminate].
      apply mapM_Throw_inv in H. exact H. }
  destruct Hmap as (signature & Hin & Hs). eapply signatureNode_Throw; eassumption.
Qed.

Lemma compositeObjectRule_Throw :
  compositeObjectRule TS heap locationNode checker (classify fuel) (heap ref) = Throw e ->
  innerFailure.
Proof.
  unfold compositeObjectRule, tupleRule, plainObjectRule.
  destruct (isTupleReference TS heap (heap ref)); intros H.
  - apply bind_Throw_inv in H as [H | (elements & _ & H)]; [| discriminate].
    apply mapM_Throw_inv in H as (property & Hin & H).
    apply filter_In in Hin as [Hin _]. eapply memberNode_Throw; eassumption.
  - apply bind_Throw_inv in H as [H | (propertyMap & _ & H)].
    + apply mapM_Throw_inv in H as (property & Hin & H). unfold propertyEntry in H.
      apply bind_Throw_inv in H as [H | (node & _ & H)]; [| discriminate].
      eapply memberNode_Throw; eassumption.
    + apply bind_Throw_inv in H as [H | (signatureResult & _ & H)]; [| discriminate].
      apply convertSignatures_Throw. exact H.
Qed.

Lemma constituentsRule_Throw (build : list AnyNode -> AnyNode) :
  constituentsRule (classify fuel) build (heap ref) = Throw e -> innerFailure.
Proof.
  unfold constituentsRule. intros H.
  apply bind_Throw_inv in H as [H | (nodes & _ & H)]; [| discriminate].
  apply mapM_Throw_inv in H as (constituent & Hin & H).
  eexists. split; [apply type_constituent; exact Hin | exact H].
Qed.

(** The classification of a type argument read by index fails either
    because the argument is missing or because the argument fails. *)
Lemma argument_Throw (index : nat) :
  classify fuel (nth_error (getTypeArguments checker ref) index) = Throw e ->
  ((List.length (getTypeArguments checker ref) <= index)%nat /\ e = TypeError)
  \/ innerFailure.
Proof.
  destruct (nth_error (getTypeArguments checker ref) index) as [argument |] eqn:Hnth.
  - intros H. right. exists argument.
    split; [apply argument_constituent; eapply nth_error_In; exact Hnth | exact H].
  - unfold classifyAt. rewrite fromType_undefined. intros H. injection H as <-.
    left. split; [apply nth_error_None; exact Hnth | reflexivity].
Qed.

Lemma namedGenericRule_Throw (symbol : Symbol) :
  dispatch TS (heap ref) = Some HasSymbol ->
  getSymbol (heap ref) = Some symbol ->
  namedGenericRule checker (classify fuel) ref symbol = Throw e ->
  fails ref e \/ innerFailure.
Proof.
  intros Hstep Hsymbol.
  assert (Hone : forall build : AnyNode -> AnyNode,
             requiredArguments (name symbol) = Some 1%nat ->
             (element <- classify fuel (nth_error (getTypeArguments checker ref) 0) ;;
              Normal (build element)) = Throw e ->
             fails ref e \/ innerFailure).
  { intros build Hrequired H.
    apply bind_Throw_inv in H as [H | (element & _ & H)]; [| discriminate].
    apply argument_Throw in H as [[Hlen ->] | H]; [left | right; exact H].
    eapply missing_type_argument; try eassumption. lia. }
  assert (Htwo : forall build : AnyNode -> AnyNode -> AnyNode,
             requiredArguments (name symbol) = Some 2%nat ->
             (key <- classify fuel (nth_error (getTypeArguments checker ref) 0) ;;
              value <- classify fuel (nth_error (getTypeArguments checker ref) 1) ;;
              Normal (build key value)) = Throw e ->
             fails ref e \/ innerFailure).
  { intros build Hrequired H.
    apply bind_Throw_inv in H as [H | (key & _ & H)].
    - apply argument_Throw in H as [[Hlen ->] | H]; [left | right; exact H].
      eapply missing_type_argument; try eassumption. lia.
    - apply bind_Throw_inv in H as [H | (value & _ & H)]; [| discriminate].
      apply argument_Throw in H as [[Hlen ->] | H]; [left | right; exact H].
      eapply missing_type_argument; try eassumption. lia. }
  pose proof (unsupported_symbol TS heap checker ref symbol Hstep Hsymbol) as Hunknown.
  revert Hone Htwo Hunknown. unfold namedGenericRule, requiredArguments.
  destruct (String.eqb (name symbol) "Array" || String.eqb (name symbol) "ReadonlyArray").
  { intros Hone _ _. apply Hone. reflexivity. }
  destruct (String.eqb (name symbol) "Date"); [discriminate |].
  destruct (String.eqb (name symbol) "Set").
  { intros Hone _ _. apply Hone. reflexivity. }
  destruct (String.eqb (name symbol) "Record").
  { intros _ Htwo _. apply Htwo. reflexivity. }
  destruct (String.eqb (name symbol) "Map").
  { intros _ Htwo _. apply Htwo. reflexivity. }
  intros _ _ Hunknown H. injection H as <-. left. apply Hunknown. reflexivity.
Qed.

End Through.

(** A failure of one call starts at the type itself or is the failure of
    one of its constituents, unchanged. *)
Lemma failure_step (fuel : nat) (ref : TypeRef) (e : Thrown) :
  run (S fuel) ref = Throw e -> fails ref e \/ innerFailure TS heap locationNode checker fuel ref e.
Proof.
  rewrite fromType_rule.
  destruct (dispatch TS (heap ref)) as [step |] eqn:Hstep.
  - destruct step; cbn [rule]; try discriminate.
    + unfold literalRule. intros H.
      destruct (value (heap ref)) as [s | n | b | z | p] eqn:Hvalue; try discriminate.
      unfold BigInt in H.
      destruct (StringToBigInt _) eqn:Hparse; [discriminate |].
      injection H as <-. left. eapply malformed_bigint; eassumption.
    + intros H. right. apply compositeObjectRule_Throw. exact H.
    + destruct (getSymbol (heap ref)) as [symbol |] eqn:Hsymbol.
      * apply namedGenericRule_Throw; assumption.
      * apply dispatch_matches in Hstep. simpl in Hstep. rewrite Hsymbol in Hstep.
        discriminate.
    + intros H. right. eapply constituentsRule_Throw. exact H.
    + intros H. right. eapply constituentsRule_Throw. exact H.
  - cbn [rule]. unfold unknownType. intros H. injection H as <-.
    left. apply unsupported_type. exact Hstep.
Qed.

Lemma failure_from (fuel : nat) (ref : TypeRef) (e : Thrown) :
  run fuel ref = Throw e -> exists origin, nested ref origin /\ fails origin e.
Proof.
  revert ref. induction fuel as [| fuel IH]; intros ref H; [discriminate |].
  apply failure_step in H as [H | (inner & Hin & H)].
  - exists ref. split; [apply reaches_here | exact H].
  - apply IH in H as (origin & Hreach & Hfails).
    exists origin. split; [eapply reaches_inside; eassumption | exact Hfails].
Qed.

End Failure.

(** ** Propagation *)

(** The outcome of a computation without its value. *)
Lemma outcome_Throw {A : Type} (c : Completion A) (e : Thrown) :
  (_ <- c ;; Normal tt) = Throw e <-> c = Throw e.
Proof.
  destruct c; simpl; split; intros H; try discriminate H; try exact H.
  - injection H as <-. reflexivity.
  - injection H as <-. reflexivity.
Qed.

Lemma outcome_Normal {A : Type} (c : Completion A) :
  (_ <- c ;; Normal tt) = Normal tt <-> exists a, c = Normal a.
Proof.
  destruct c as [a | e |]; simpl; split; intros H; try discriminate H.
  - exists a. reflexivity.
  - reflexivity.
  - destruct H as [a H]. discriminate H.
  - destruct H as [a H]. discriminate H.
Qed.

Lemma outcome_bind {A B : Type} (c : Completion A) (k : A -> Completion B) :
  (_ <- (x <- c ;; k x) ;; Normal tt) = (x <- c ;; _ <- k x ;; Normal tt).
Proof.
  destruct c; reflexivity.
Qed.

Lemma outcome_seq {A B C D : Type} (c : Completion A) (k : A -> Completion B)
    (c' : Completion C) (d : Completion D) :
  (_ <- c ;; Normal tt) = (_ <- c' ;; Normal tt) ->
  (forall a, (_ <- k a ;; Normal tt) = (_ <- d ;; Normal tt)) ->
  (_ <- (x <- c ;; k x) ;; Normal tt) = (_ <- c' ;; _ <- d ;; Normal tt).
Proof.
  intros Hc Hk. destruct c, c'; simpl in *; try discriminate Hc; try exact Hc.
  apply Hk.
Qed.

Lemma outcome_mapM_cons {A B : Type} (f : A -> Completion B) (x : A) (xs : list A) :
  (_ <- mapM f (x :: xs) ;; Normal tt) = (_ <- f x ;; _ <- mapM f xs ;; Normal tt).
Proof.
  simpl. destruct (f x); simpl; [| reflexivity | reflexivity].
  destruct (mapM f xs); reflexivity.
Qed.

Lemma outcome_mapM_app {A B : Type} (f : A -> Completion B) (xs ys : list A) :
  (_ <- mapM f (xs ++ ys) ;; Normal tt)
  = (_ <- mapM f xs ;; _ <- mapM f ys ;; Normal tt).
Proof.
  induction xs as [| x xs IH].
  - reflexivity.
  - cbn [app]. rewrite outcome_mapM_cons, IH. simpl.
    destruct (f x); simpl; [| reflexivity | reflexivity].
    destruct (mapM f xs); reflexivity.
Qed.

(** A map whose callback makes the calls [g x] makes the calls of all the
    elements, one element after the other. *)
Lemma outcome_mapM_flat_map {A B C D : Type} (f : A -> Completion B) (g : A -> list C)
    (h : C -> Completion D) (xs : list A) :
  (forall x, (_ <- f x ;; Normal tt) = (_ <- mapM h (g x) ;; Normal tt)) ->
  (_ <- mapM f xs ;; Normal tt) = (_ <- mapM h (flat_map g xs) ;; Normal tt).
Proof.
  intros H. induction xs as [| x xs IH].
  - reflexivity.
  - cbn [flat_map mapM]. rewrite outcome_mapM_app.
    apply outcome_seq; [apply H |].
    intros y. rewrite outcome_bind, <- IH.
    destruct (mapM f xs); reflexivity.
Qed.

Lemma outcome_mapM_map {A B C D : Type} (f : A -> Completion B) (g : A -> C)
    (h : C -> Completion D) (xs : list A) :
  (forall x, (_ <- f x ;; Normal tt) = (_ <- h (g x) ;; Normal tt)) ->
  (_ <- mapM f xs ;; Normal tt) = (_ <- mapM h (List.map g xs) ;; Normal tt).
Proof.
  intros H. induction xs as [| x xs IH].
  - reflexivity.
  - cbn [List.map]. rewrite (outcome_mapM_cons h). cbn [mapM].
    apply outcome_seq; [apply H |].
    intros y. rewrite outcome_bind, <- IH.
    destruct (mapM f xs); reflexivity.
Qed.

(** A map throws what the callback throws on the first element on which it
    does not return. *)
Lemma mapM_Throw_iff {A B : Type} (f : A -> Completion B) (xs : list A) (e : Thrown) :
  mapM f xs = Throw e
  <-> exists before x after,
        xs = before ++ x :: after
        /\ Forall (fun y => exists b, f y = Normal b) before
        /\ f x = Throw e.
Proof.
  split.
  - induction xs as [| x xs IH]; simpl; [discriminate |].
    destruct (f x) as [b | e' |] eqn:Hx; simpl; [| | discriminate].
    + intros H. destruct (mapM f xs) as [bs | e' |]; simpl in H; try discriminate H.
      destruct (IH H) as (before & y & after & -> & Hbefore & Hy).
      exists (x :: before), y, after. split; [reflexivity |].
      split; [| exact Hy]. constructor; [exists b; exact Hx | exact Hbefore].
    + intros H. injection H as <-. exists [], x, xs.
      split; [reflexivity |]. split; [constructor | exact Hx].
  - intros (before & x & after & -> & Hbefore & Hx).
    induction Hbefore as [| y before [b Hy] _ IH]; simpl.
    + rewrite Hx. reflexivity.
    + rewrite Hy. simpl. rewrite IH. reflexivity.
Qed.

Lemma mapM_returns {A B : Type} (f : A -> Completion B) (xs : list A) :
  (exists ys, mapM f xs = Normal ys) <-> Forall (fun x => exists y, f x = Normal y) xs.
Proof.
  split.
  - intros [ys H]. apply mapM_Normal_iff in H.
    induction H as [| x y xs ys Hxy _ IH]; constructor; [exists y; exact Hxy | exact IH].
  - induction 1 as [| x xs [y Hxy] _ [ys IH]]; simpl.
    + exists []. reflexivity.
    + rewrite Hxy, IH. exists (y :: ys). reflexivity.
Qed.

Section Propagation.

Context {Node_ : Type}.
Variable TS : ts.
Variable heap : TypeRef -> Type_.
Variable locationNode : Node_.
Variable checker : TypeChecker Node_.

Local Abbreviation classify := (classifyAt TS heap locationNode checker).
Local Abbreviation run fuel ref := (fromType TS heap fuel (Some ref) locationNode checker).
Local Abbreviation typeOf :=
  (fun symbol : Symbol => Some (typeOfSymbol locationNode checker symbol)).
Local Abbreviation signatureCalls :=
  (fun signature : Signature =>
     List.map typeOf (getParameters signature)
     ++ [Some (getReturnTypeOfSignature checker signature)]).

Lemma outcome_single (fuel : nat) (type : option TypeRef) :
  (_ <- classify fuel type ;; Normal tt) = (_ <- mapM (classify fuel) [type] ;; Normal tt).
Proof.
  simpl. destruct (classify fuel type); reflexivity.
Qed.

Lemma memberNode_calls (fuel : nat) (property : Symbol) :
  (_ <- memberNode TS locationNode checker (classify fuel) property ;; Normal tt)
  = (_ <- classify fuel (typeOf property) ;; Normal tt).
Proof.
  unfold memberNode. rewrite outcome_bind. reflexivity.
Qed.

Lemma propertyEntry_calls (fuel : nat) (property : Symbol) :
  (_ <- propertyEntry TS locationNode checker (classify fuel) property ;; Normal tt)
  = (_ <- classify fuel (typeOf property) ;; Normal tt).
Proof.
  unfold propertyEntry. rewrite outcome_bind. apply memberNode_calls.
Qed.

Lemma signatureNode_calls (fuel : nat) (signature : Signature) :
  (_ <- signatureNode locationNode checker (classify fuel) signature ;; Normal tt)
  = (_ <- mapM (classify fuel) (signatureCalls signature) ;; Normal tt).
Proof.
  unfold signatureNode. rewrite outcome_mapM_app.
  apply outcome_seq.
  - apply (outcome_mapM_map _ typeOf (classify fuel)). reflexivity.
  - intros argumentNodes. rewrite outcome_bind. apply outcome_single.
Qed.

Lemma convertSignatures_calls (fuel : nat) (signatures : list Signature) :
  (_ <- convertSignatures locationNode checker (classify fuel) signatures ;; Normal tt)
  = (_ <- mapM (classify fuel) (flat_map signatureCalls signatures) ;; Normal tt).
Proof.
  assert (Hmap : (_ <- mapM (signatureNode locationNode checker (classify fuel)) signatures ;;
                  Normal tt)
                 = (_ <- mapM (classify fuel) (flat_map signatureCalls signatures) ;;
                    Normal tt)).
  { apply outcome_mapM_flat_map. intros signature. apply signatureNode_calls. }
  rewrite <- Hmap.
  destruct signatures as [| s1 [| s2 rest]].
  - reflexivity.
  - unfold convertSignatures. rewrite outcome_bind, outcome_mapM_cons.
    destruct (signatureNode locationNode checker (classify fuel) s1); reflexivity.
  - unfold convertSignatures. rewrite outcome_bind. reflexivity.
Qed.

Lemma compositeObjectRule_calls (fuel : nat) (ref : TypeRef) :
  dispatch TS (heap ref) = Some IsObject ->
  (_ <- compositeObjectRule TS heap locationNode checker (classify fuel) (heap ref) ;;
   Normal tt)
  = (_ <- mapM (classify fuel) (nestedCalls TS heap locationNode checker ref) ;; Normal tt).
Proof.
  intros Hstep. unfold nestedCalls, compositeObjectRule. rewrite Hstep.
  destruct (isTupleReference TS heap (heap ref)).
  - unfold tupleRule. rewrite outcome_bind.
    apply (outcome_mapM_map _ typeOf (classify fuel)). apply memberNode_calls.
  - unfold plainObjectRule. rewrite outcome_mapM_app.
    apply outcome_seq.
    + apply (outcome_mapM_map _ typeOf (classify fuel)). apply propertyEntry_calls.
    + intros propertyMap. rewrite outcome_bind, <- convertSignatures_calls. reflexivity.
Qed.

Lemma constituentsRule_calls (fuel : nat) (ref : TypeRef) (build : list AnyNode -> AnyNode) :
  (_ <- constituentsRule (classify fuel) build (heap ref) ;; Normal tt)
  = (_ <- mapM (classify fuel) (List.map Some (types (heap ref))) ;; Normal tt).
Proof.
  unfold constituentsRule. rewrite outcome_bind.
  apply (outcome_mapM_map _ Some (classify fuel)). reflexivity.
Qed.

Lemma namedGenericRule_calls (fuel : nat) (ref : TypeRef) (symbol : Symbol) (required : nat) :
  requiredArguments (name symbol) = Some required ->
  (_ <- namedGenericRule checker (classify fuel) ref symbol ;; Normal tt)
  = (_ <- mapM (classify fuel)
            (List.map (nth_error (getTypeArguments checker ref)) (seq 0 required)) ;;
     Normal tt).
Proof.
  unfold namedGenericRule, requiredArguments.
  assert (Hone : forall build : AnyNode -> AnyNode,
             (_ <- (element <- classify fuel (nth_error (getTypeArguments checker ref) 0) ;;
                    Normal (build element)) ;; Normal tt)
             = (_ <- mapM (classify fuel)
                       (List.map (nth_error (getTypeArguments checker ref)) (seq 0 1)) ;;
                Normal tt)).
  { intros build. rewrite outcome_bind. apply outcome_single. }
  assert (Htwo : forall build : AnyNode -> AnyNode -> AnyNode,
             (_ <- (key <- classify fuel (nth_error (getTypeArguments checker ref) 0) ;;
                    value <- classify fuel (nth_error (getTypeArguments checker ref) 1) ;;
                    Normal (build key value)) ;; Normal tt)
             = (_ <- mapM (classify fuel)
                       (List.map (nth_error (getTypeArguments checker ref)) (seq 0 2)) ;;
                Normal tt)).
  { intros build. cbn [seq List.map]. rewrite outcome_mapM_cons.
    apply outcome_seq; [reflexivity |].
    intros key. rewrite outcome_bind. apply outcome_single. }
  destruct (String.eqb (name symbol) "Array" || String.eqb (name symbol) "ReadonlyArray").
  { intros H. injection H as <-. apply Hone. }
  destruct (String.eqb (name symbol) "Date").
  { intros H. injection H as <-. reflexivity. }
  destruct (String.eqb (name symbol) "Set").
  { intros H. injection H as <-. apply Hone. }
  destruct (String.eqb (name symbol) "Record").
  { intros H. injection H as <-. apply Htwo. }
  destruct (String.eqb (name symbol) "Map").
  { intros H. injection H as <-. apply Htwo. }
  discriminate.
Qed.

(** What the call throws itself it throws, and it makes no nested call. *)
Lemma throwsItself_run (fuel : nat) (ref : TypeRef) (e : Thrown) :
  throwsItself TS heap checker ref e ->
  run (S fuel) ref = Throw e /\ nestedCalls TS heap locationNode checker ref = [].
Proof.
  intros H. rewrite fromType_rule. unfold nestedCalls.
  destruct H as [symbol Hstep Hsymbol Hname | Hstep | p Hstep Hvalue Hparse];
    rewrite Hstep; cbn [rule].
  - rewrite Hsymbol, Hname. split; [| reflexivity].
    unfold namedGenericRule. unfold requiredArguments in Hname.
    repeat match goal with
           | |- (if ?b then _ else _) = _ => destruct b; try discriminate Hname
           end.
    reflexivity.
  - split; reflexivity.
  - split; [| reflexivity].
    unfold literalRule. rewrite Hvalue. unfold BigInt. rewrite Hparse. reflexivity.
Qed.

(** The outcome of a call that throws nothing itself is the outcome of its
    nested calls, made one after the other. *)
Lemma run_calls (fuel : nat) (ref : TypeRef) :
  (exists e, throwsItself TS heap checker ref e)
  \/ (_ <- run (S fuel) ref ;; Normal tt)
     = (_ <- mapM (classify fuel) (nestedCalls TS heap locationNode checker ref) ;;
        Normal tt).
Proof.
  rewrite fromType_rule.
  destruct (dispatch TS (heap ref)) as [step |] eqn:Hstep.
  2:{ left. eexists. apply throws_unsupported_type. exact Hstep. }
  destruct step; cbn [rule];
    try (right; unfold nestedCalls; rewrite Hstep; reflexivity).
  - unfold literalRule.
    destruct (value (heap ref)) as [s | n | b | z | p] eqn:Hvalue;
      try (right; unfold nestedCalls; rewrite Hstep; reflexivity).
    destruct (StringToBigInt ((if negative p then "-" else "") ++ base10Value p))
      as [z |] eqn:Hparse.
    + right. unfold nestedCalls, BigInt. rewrite Hstep, Hparse. reflexivity.
    + left. exists SyntaxError. eapply throws_malformed_bigint; eassumption.
  - right. apply compositeObjectRule_calls. exact Hstep.
  - destruct (getSymbol (heap ref)) as [symbol |] eqn:Hsymbol.
    + destruct (requiredArguments (name symbol)) as [required |] eqn:Hname.
      * right. unfold nestedCalls. rewrite Hstep, Hsymbol, Hname.
        apply namedGenericRule_calls. exact Hname.
      * left. eexists. eapply throws_unsupported_symbol; eassumption.
    + apply dispatch_matches in Hstep. simpl in Hstep. rewrite Hsymbol in Hstep.
      discriminate.
  - right. unfold nestedCalls. rewrite Hstep. apply constituentsRule_calls.
  - right. unfold nestedCalls. rewrite Hstep. apply constituentsRule_calls.
Qed.

(** No failure is caught: the call throws [e] exactly when it throws [e]
    itself or its first nested call that does not return throws [e]. *)
Lemma run_Throw_iff (fuel : nat) (ref : TypeRef) (e : Thrown) :
  run (S fuel) ref = Throw e
  <-> throwsItself TS heap checker ref e
      \/ firstFailure TS heap locationNode checker fuel ref e.
Proof.
  split.
  - intros Hrun. destruct (run_calls fuel ref) as [[e' Hown] | Hcalls].
    + left. destruct (throwsItself_run fuel ref e' Hown) as [Hrun' _].
      rewrite Hrun' in Hrun. injection Hrun as <-. exact Hown.
    + right. apply outcome_Throw in Hrun. rewrite Hcalls in Hrun.
      apply outcome_Throw, mapM_Throw_iff in Hrun. exact Hrun.
  - intros [Hown | Hfirst].
    + apply (throwsItself_run fuel ref e Hown).
    + destruct (run_calls fuel ref) as [[e' Hown] | Hcalls].
      * destruct (throwsItself_run fuel ref e' Hown) as [_ Hnone].
        destruct Hfirst as (before & inner & after & Hsplit & _).
        rewrite Hnone in Hsplit. destruct before; discriminate Hsplit.
      * apply outcome_Throw. rewrite Hcalls. apply outcome_Throw, mapM_Throw_iff.
        exact Hfirst.
Qed.

(** No partial node: the call returns a node only when every nested call
    returned one. *)
Lemma run_Normal_calls (fuel : nat) (ref : TypeRef) (node : AnyNode) :
  run (S fuel) ref = Normal node ->
  Forall (returns TS heap locationNode checker fuel)
         (nestedCalls TS heap locationNode checker ref).
Proof.
  intros Hrun. destruct (run_calls fuel ref) as [[e Hown] | Hcalls].
  - destruct (throwsItself_run fuel ref e Hown) as [Hrun' _].
    rewrite Hrun' in Hrun. discriminate Hrun.
  - assert (H : (_ <- run (S fuel) ref ;; Normal tt) = Normal tt)
      by (rewrite Hrun; reflexivity).
    rewrite Hcalls in H. apply outcome_Normal, mapM_returns in H. exact H.
Qed.

End Propagation.

Section Termination.

Context {Node_ : Type}.
Variable TS : ts.
Variable heap : TypeRef -> Type_.
Variable locationNode : Node_.
Variable checker : TypeChecker Node_.

Local Abbreviation classify := (classifyAt TS heap locationNode checker).
Local Abbreviation run fuel ref := (fromType TS heap fuel (Some ref) locationNode checker).
Local Abbreviation within := (constituents heap locationNode checker).

Section OneCall.

Variable fuel : nat.
Variable ref : TypeRef.
Hypothesis inner_return :
  forall inner, In inner (within ref) -> classify fuel (Some inner) <> OutOfFuel.

Lemma memberNode_returns (property : Symbol) :
  In property (getProperties (heap ref)) ->
  memberNode TS locationNode checker (classify fuel) property <> OutOfFuel.
Proof.
  intros Hin. unfold memberNode. apply bind_not_OutOfFuel; [| discriminate].
  apply inner_return. apply member_constituent. exact Hin.
Qed.

Lemma signatureNode_returns (signature : Signature) :
  In signature (getCallSignatures (heap ref)) ->
  signatureNode locationNode checker (classify fuel) signature <> OutOfFuel.
Proof.
  intros Hin. unfold signatureNode. apply bind_not_OutOfFuel.
  - apply mapM_not_OutOfFuel. intros parameter Hp.
    apply inner_return. eapply parameter_constituent; eassumption.
  - intros argumentNodes. apply bind_not_OutOfFuel; [| discriminate].
    apply inner_return. apply return_constituent. exact Hin.
Qed.

Lemma convertSignatures_returns :
  convertSignatures locationNode checker (classify fuel) (getCallSignatures (heap ref))
  <> OutOfFuel.
Proof.
  pose proof signatureNode_returns as Hs.
  destruct (getCallSignatures (heap ref)) as [| s1 [| s2 rest]].
  - discriminate.
  - simpl. apply bind_not_OutOfFuel; [| discriminate]. apply Hs. left. reflexivity.
  - apply bind_not_OutOfFuel; [| discriminate]. apply mapM_not_OutOfFuel. exact Hs.
Qed.

Lemma compositeObjectRule_returns :
  compositeObjectRule TS heap locationNode checker (classify fuel) (heap ref) <> OutOfFuel.
Proof.
  unfold compositeObjectRule, tupleRule, plainObjectRule.
  destruct (isTupleReference TS heap (heap ref)).
  - apply bind_not_OutOfFuel; [| discriminate]. apply mapM_not_OutOfFuel.
    intros property Hin. apply filter_In in Hin as [Hin _].
    apply memberNode_returns. exact Hin.
  - apply bind_not_OutOfFuel.
    + apply mapM_not_OutOfFuel. intros property Hin. unfold propertyEntry.
      apply bind_not_OutOfFuel; [| discriminate]. apply memberNode_returns. exact Hin.
    + intros propertyMap. apply bind_not_OutOfFuel; [| discriminate].
      apply convertSignatures_returns.
Qed.

Lemma constituentsRule_returns (build : list AnyNode -> AnyNode) :
  constituentsRule (classify fuel) build (heap ref) <> OutOfFuel.
Proof.
  unfold constituentsRule. apply bind_not_OutOfFuel; [| discriminate].
  apply mapM_not_OutOfFuel. intros constituent Hin.
  apply inner_return. apply type_constituent. exact Hin.
Qed.

Lemma argument_returns (index : nat) :
  classify fuel (nth_error (getTypeArguments checker ref) index) <> OutOfFuel.
Proof.
  destruct (nth_error (getTypeArguments checker ref) index) as [argument |] eqn:Hnth.
  - apply inner_return. apply argument_constituent. eapply nth_error_In. exact Hnth.
  - unfold classifyAt. rewrite fromType_undefined. discriminate.
Qed.

Lemma namedGenericRule_returns (symbol : Symbol) :
  namedGenericRule checker (classify fuel) ref symbol <> OutOfFuel.
Proof.
  unfold namedGenericRule.
  repeat match goal with
         | |- (if ?b then _ else _) <> _ => destruct b
         | |- bind _ _ <> _ => apply bind_not_OutOfFuel; [apply argument_returns | intros ?]
         end; discriminate.
Qed.

Lemma call_returns : run (S fuel) ref <> OutOfFuel.
Proof.
  rewrite fromType_rule.
  destruct (dispatch TS (heap ref)) as [step |]; [| discriminate].
  destruct step; cbn [rule]; try discriminate.
  - unfold literalRule, BigInt.
    destruct (value (heap ref)); try discriminate.
    destruct (StringToBigInt _); discriminate.
  - apply compositeObjectRule_returns.
  - destruct (getSymbol (heap ref)); [apply namedGenericRule_returns | discriminate].
  - apply constituentsRule_returns.
  - apply constituentsRule_returns.
Qed.

End OneCall.

(** On a graph without cycles a call depth above the nesting depth of the
    type is enough: the call returns a node or throws. *)
Lemma acyclic_returns (depth : TypeRef -> nat) :
  acyclic heap locationNode checker depth ->
  forall fuel ref, (depth ref < fuel)%nat -> run fuel ref <> OutOfFuel.
Proof.
  intros Hacyclic. induction fuel as [| fuel IH]; intros ref Hdepth; [lia |].
  apply call_returns. intros inner Hin. apply IH.
  specialize (Hacyclic ref inner Hin). lia.
Qed.

(** More call depth does not change a result. *)
Lemma refines_bind {A B : Type} (c c' : Completion A) (k k' : A -> Completion B) :
  refines c c' -> (forall a, refines (k a) (k' a)) -> refines (bind c k) (bind c' k').
Proof.
  intros [-> | ->] Hk; [left; reflexivity |].
  destruct c as [a | e |]; simpl; [apply Hk | right; reflexivity | left; reflexivity].
Qed.

Lemma refines_refl {A : Type} (c : Completion A) : refines c c.
Proof.
  right. reflexivity.
Qed.

Lemma refines_mapM {A B : Type} (f g : A -> Completion B) (xs : list A) :
  (forall x, refines (f x) (g x)) -> refines (mapM f xs) (mapM g xs).
Proof.
  intros H. induction xs as [| x rest IH]; simpl; [apply refines_refl |].
  apply refines_bind; [apply H | intros y].
  apply refines_bind; [exact IH | intros ys; apply refines_refl].
Qed.

Lemma rule_refines (classify1 classify2 : option TypeRef -> Completion AnyNode)
    (ref : TypeRef) (step : option Step) :
  (forall type, refines (classify1 type) (classify2 type)) ->
  refines (rule TS heap locationNode checker classify1 ref step)
          (rule TS heap locationNode checker classify2 ref step).
Proof.
  intros H.
  assert (Hmember : forall property,
             refines (memberNode TS locationNode checker classify1 property)
                     (memberNode TS locationNode checker classify2 property)).
  { intros property. unfold memberNode.
    apply refines_bind; [apply H | intros; apply refines_refl]. }
  assert (Hsignature : forall signature,
             refines (signatureNode locationNode checker classify1 signature)
                     (signatureNode locationNode checker classify2 signature)).
  { intros signature. unfold signatureNode.
    apply refines_bind; [apply refines_mapM; intros; apply H | intros].
    apply refines_bind; [apply H | intros; apply refines_refl]. }
  destruct step as [step |]; [| apply refines_refl].
  destruct step; cbn [rule]; try apply refines_refl.
  - unfold compositeObjectRule, tupleRule, plainObjectRule.
    destruct (isTupleReference TS heap (heap ref)).
    + apply refines_bind; [apply refines_mapM; exact Hmember | intros; apply refines_refl].
    + apply refines_bind.
      * apply refines_mapM. intros property. unfold propertyEntry.
        apply refines_bind; [apply Hmember | intros; apply refines_refl].
      * intros propertyMap. apply refines_bind; [| intros; apply refines_refl].
        unfold convertSignatures.
        destruct (getCallSignatures (heap ref)) as [| s1 [| s2 rest]].
        -- apply refines_refl.
        -- apply refines_bind; [apply Hsignature | intros; apply refines_refl].
        -- apply refines_bind; [apply refines_mapM; exact Hsignature
                               | intros; apply refines_refl].
  - destruct (getSymbol (heap ref)); [| apply refines_refl].
    unfold namedGenericRule.
    repeat match goal with
           | |- refines (if ?b then _ else _) _ => destruct b
           | |- refines (bind _ _) _ => apply refines_bind; [apply H | intros ?]
           end; apply refines_refl.
  - unfold constituentsRule.
    apply refines_bind; [apply refines_mapM; intros; apply H | intros; apply refines_refl].
  - unfold constituentsRule.
    apply refines_bind; [apply refines_mapM; intros; apply H | intros; apply refines_refl].
Qed.

Lemma fromType_refines (fuel : nat) (type : option TypeRef) :
  refines (classify fuel type) (classify (S fuel) type).
Proof.
  revert type. induction fuel as [| fuel IH]; intros [ref |].
  - left. reflexivity.
  - right. reflexivity.
  - unfold classifyAt. rewrite !fromType_rule. apply rule_refines. exact IH.
  - right. reflexivity.
Qed.

Lemma fromType_more_fuel (fuel more : nat) (type : option TypeRef) :
  (fuel <= more)%nat -> refines (classify fuel type) (classify more type).
Proof.
  induction 1 as [| more _ IH]; [apply refines_refl |].
  destruct IH as [IH | IH]; [left; exact IH |].
  destruct (fromType_refines more type) as [H | H].
  - left. rewrite <- IH. exact H.
  - right. rewrite H. exact IH.
Qed.

End Termination.

(** ** The classifier and its specification *)

Section Claims.

Context {Node_ : Type}.
Variable TS : ts.
Variable heap : TypeRef -> Type_.
Variable locationNode : Node_.
Variable checker : TypeChecker Node_.

Local Abbreviation classify := (classifyAt TS heap locationNode checker).
Local Abbreviation run fuel ref := (fromType TS heap fuel (Some ref) locationNode checker).

(** C1, amended.  For a type at the is-object step that is not a tuple
    reference, when its members and its call signatures classify: without
    call signatures the result is [object] of the map of all members, each
    node wrapped in [optional] when the member is
    optional; with call signatures and no member it is the result of the
    signature converter; with both it is the [intersection] of that result
    and the [object].  When no two members have the same name, the object has
    exactly the entries of the members: first those whose name is an array
    index, by ascending index, then the others in the order reported. *)
Theorem object_combination (fuel : nat) (ref : TypeRef)
    (propertyMap : list (String.string * AnyNode)) (signatureResult : option AnyNode) :
  dispatch TS (heap ref) = Some IsObject ->
  isTupleReference TS heap (heap ref) = false ->
  Forall2 (propertyYields TS locationNode checker (classify fuel))
          (getProperties (heap ref)) propertyMap ->
  getNodeFromCallSignatures (fromType TS heap fuel) (getCallSignatures (heap ref))
    locationNode checker = Normal signatureResult ->
  match getCallSignatures (heap ref), getProperties (heap ref) with
  | [], _ =>
      signatureResult = None
      /\ run (S fuel) ref = Normal (Core.object (fromEntries propertyMap))
  | _ :: _, [] =>
      exists node, signatureResult = Some node /\ run (S fuel) ref = Normal node
  | _ :: _, _ :: _ =>
      exists node,
        signatureResult = Some node
        /\ run (S fuel) ref
           = Normal (Core.intersection [node; Core.object (fromEntries propertyMap)])
  end
  /\ (NoDup (List.map name (getProperties (heap ref))) ->
      exists indexed,
        Permutation indexed (filter isIndexed propertyMap)
        /\ StronglySorted indexBefore indexed
        /\ fromEntries propertyMap
           = indexed ++ filter (fun entry => negb (isIndexed entry)) propertyMap).
Proof.
  intros Hstep Htuple Hprops Hsigs.
  split.
  2:{ intros Hnames. apply fromEntries_ordered.
      rewrite (propertyYields_names TS locationNode checker _ _ _ Hprops). exact Hnames. }
  assert (Hrun : run (S fuel) ref = Normal (combine signatureResult propertyMap)).
  { rewrite fromType_rule, Hstep. cbn [rule]. unfold compositeObjectRule.
    rewrite Htuple. unfold plainObjectRule.
    apply (Forall2_iff _ _ _ _
             (fun p e => iff_sym (propertyEntry_yields TS heap locationNode checker fuel p e)))
      in Hprops.
    apply mapM_Normal_iff in Hprops. rewrite Hprops. simpl.
    rewrite <- getNodeFromCallSignatures_convert, Hsigs. reflexivity. }
  pose proof (Forall2_length Hprops) as Hlen.
  rewrite getNodeFromCallSignatures_convert in Hsigs.
  destruct (getCallSignatures (heap ref)) as [| s1 rest] eqn:Hcs.
  - injection Hsigs as <-. split; [reflexivity | exact Hrun].
  - assert (Hsome : exists node, signatureResult = Some node).
    { destruct rest; simpl in Hsigs.
      - apply bind_Normal_inv in Hsigs as (node & _ & H). injection H as <-. eauto.
      - apply bind_Normal_inv in Hsigs as (ns & _ & H). injection H as <-. eauto. }
    destruct Hsome as (node & ->).
    destruct (getProperties (heap ref)); destruct propertyMap; try discriminate;
      exists node; split; try reflexivity; exact Hrun.
Qed.

(** C2.  A type at the is-object step that is a reference to a tuple
    target classifies to a node exactly when the node is [tuple] of the
    nodes of the members other than [length], in their order, each wrapped
    in [optional] when the member is optional; the result is never that of
    the plain-object path. *)
Theorem tuple_reference (fuel : nat) (ref : TypeRef) (node : AnyNode) :
  dispatch TS (heap ref) = Some IsObject ->
  isTupleReference TS heap (heap ref) = true ->
  run (S fuel) ref = Normal node
  <-> exists elements,
        node = Core.tuple elements
        /\ List.length elements
           = List.length (filter notLength (getProperties (heap ref)))
        /\ Forall2 (memberYields TS locationNode checker (classify fuel))
                   (filter notLength (getProperties (heap ref))) elements.
Proof.
  intros Hstep Htuple.
  rewrite fromType_rule, Hstep. cbn [rule]. unfold compositeObjectRule.
  rewrite Htuple. unfold tupleRule. split.
  - intros H. apply bind_Normal_inv in H as (elements & Helements & H).
    injection H as <-. exists elements. split; [reflexivity |].
    apply mapM_Normal_iff in Helements.
    split; [symmetry; exact (Forall2_length Helements) |].
    apply (Forall2_iff _ _ _ _
             (fun p n => memberNode_yields TS heap locationNode checker fuel p n))
      in Helements.
    exact Helements.
  - intros (elements & -> & _ & H).
    apply (Forall2_iff _ _ _ _ (fun p n => iff_sym (memberNode_yields TS heap locationNode checker fuel p n))) in H.
    apply mapM_Normal_iff in H. rewrite H. reflexivity.
Qed.

(** C3.  The signature converter returns absent ([None]) for no signature;
    when the parameters of every signature, in order, and its return type
    classify, every signature gives its [func] node, one signature returns
    that node, and K > 1 signatures return the [union] of the K nodes in
    the order of the signatures. *)
Theorem signature_converter (fuel : nat) (callSignatures : list Signature)
    (nodes : list AnyNode) :
  Forall2 (signatureYields locationNode checker (classify fuel)) callSignatures nodes ->
  List.length nodes = List.length callSignatures
  /\ getNodeFromCallSignatures (fromType TS heap fuel) callSignatures locationNode checker
     = Normal (match nodes with
               | [] => None
               | [node] => Some node
               | _ => Some (Core.union nodes)
               end).
Proof.
  intros H. split; [symmetry; exact (Forall2_length H) |].
  rewrite getNodeFromCallSignatures_convert.
  pose proof (Forall2_length H) as Hlen.
  apply (Forall2_iff _ _ _ _ (fun s n => iff_sym (signatureNode_yields TS heap locationNode checker fuel s n))) in H.
  destruct callSignatures as [| s1 [| s2 rest]].
  - destruct nodes; [reflexivity | discriminate].
  - destruct nodes as [| n1 [| n2 nodes]]; try discriminate.
    inversion H as [| ? ? ? ? H1 _]; subst. simpl. rewrite H1. reflexivity.
  - destruct nodes as [| n1 [| n2 nodes]]; try discriminate.
    apply mapM_Normal_iff in H.
    change (convertSignatures locationNode checker (classify fuel) (s1 :: s2 :: rest))
      with (ns <- mapM (signatureNode locationNode checker (classify fuel))
                       (s1 :: s2 :: rest) ;;
            Normal (Some (Core.union ns))).
    rewrite H. reflexivity.
Qed.

(** C4.  For a type at the step of the nominal symbol: the names [Array]
    and [ReadonlyArray] give [array] of the classified first type argument,
    [Set] gives [set] of it, [Record] and [Map] give [record] and [map] of
    the classified first and second type arguments, and [Date] gives [date]
    whatever the type arguments. *)
Theorem named_generic (fuel : nat) (ref : TypeRef) (symbol : Symbol) :
  dispatch TS (heap ref) = Some HasSymbol ->
  getSymbol (heap ref) = Some symbol ->
  let first := nth_error (getTypeArguments checker ref) 0 in
  let second := nth_error (getTypeArguments checker ref) 1 in
  (name symbol = "Array"%string \/ name symbol = "ReadonlyArray"%string ->
   run (S fuel) ref = (element <- classify fuel first ;; Normal (Core.array element)))
  /\ (name symbol = "Set"%string ->
      run (S fuel) ref = (element <- classify fuel first ;; Normal (Core.set element)))
  /\ (name symbol = "Record"%string ->
      run (S fuel) ref
      = (key <- classify fuel first ;; value <- classify fuel second ;;
         Normal (Core.record key value)))
  /\ (name symbol = "Map"%string ->
      run (S fuel) ref
      = (key <- classify fuel first ;; value <- classify fuel second ;;
         Normal (Core.map key value)))
  /\ (name symbol = "Date"%string -> run (S fuel) ref = Normal Core.date).
Proof.
  intros Hstep Hsymbol first second.
  rewrite fromType_rule, Hstep. cbn [rule]. rewrite Hsymbol. unfold namedGenericRule.
  repeat split.
  - intros [-> | ->]; reflexivity.
  - intros ->; reflexivity.
  - intros ->; reflexivity.
  - intros ->; reflexivity.
  - intros ->; reflexivity.
Qed.

(** C5.  One call applies the rule of the first step, in the documented
    order, whose test the type passes, and fails as an unknown type when it
    passes none; a type whose only recognized flag is that of a primitive
    classifies to that primitive node. *)
Theorem dispatch_order (fuel : nat) (ref : TypeRef) :
  (forall step,
      firstMatch TS (heap ref) step ->
      run (S fuel) ref = rule TS heap locationNode checker (classify fuel) ref (Some step))
  /\ ((forall step, In step priority -> matches TS (heap ref) step = false) ->
      run (S fuel) ref = Throw (Error ("Unknown type: " ++ typeToString checker ref)))
  /\ (forall step node,
        primitive step = Some node ->
        matches TS (heap ref) step = true ->
        (forall other, In other capabilityFlags -> other <> step ->
                       matches TS (heap ref) other = false) ->
        run (S fuel) ref = Normal node).
Proof.
  split; [| split].
  - intros step H. rewrite fromType_rule, (firstMatch_dispatch _ _ _ H). reflexivity.
  - intros H. rewrite fromType_rule. unfold dispatch. rewrite (find_none _ _ H). reflexivity.
  - intros step node Hprimitive Hstep Hothers. rewrite fromType_rule.
    assert (Hfirst : dispatch TS (heap ref) = Some step).
    { unfold dispatch, priority.
      destruct step; try discriminate Hprimitive; cbn [find];
        repeat first
          [ rewrite Hstep; reflexivity
          | match goal with
            | |- context [matches TS (heap ref) ?other] =>
                rewrite (Hothers other) by (simpl; tauto || discriminate)
            end ]. }
    rewrite Hfirst.
    destruct step; try discriminate Hprimitive; injection Hprimitive as <-; reflexivity.
Qed.

(** A [literal] node is the node of a type at the is-literal step. *)
Lemma literal_node_step (fuel : nat) (ref : TypeRef) (v : JsValue) :
  run (S fuel) ref = Normal (Core.literal v) -> dispatch TS (heap ref) = Some IsLiteral.
Proof.
  rewrite fromType_rule.
  destruct (dispatch TS (heap ref)) as [step |] eqn:Hstep; [| discriminate].
  intros H. destruct step; cbn [rule] in H; try discriminate H; try reflexivity.
  - unfold compositeObjectRule, tupleRule, plainObjectRule in H.
    destruct (isTupleReference TS heap (heap ref)).
    + apply bind_Normal_inv in H as (elements & _ & H). discriminate H.
    + apply bind_Normal_inv in H as (propertyMap & _ & H).
      apply bind_Normal_inv in H as (signatureResult & Hconvert & H).
      destruct signatureResult as [node |]; [| discriminate H].
      assert (Hnode : node = Core.literal v).
      { destruct propertyMap; [| discriminate H]. simpl in H. injection H as ->. reflexivity. }
      subst node.
      destruct (getCallSignatures (heap ref)) as [| s1 [| s2 rest]].
      * discriminate Hconvert.
      * simpl in Hconvert. apply bind_Normal_inv in Hconvert as (n & Hn & Hconvert).
        injection Hconvert as ->.
        apply signatureNode_yields in Hn as (a & r & _ & _ & Hn). discriminate Hn.
      * apply bind_Normal_inv in Hconvert as (nodes & _ & Hconvert). discriminate Hconvert.
  - destruct (getSymbol (heap ref)) as [symbol |]; [| discriminate H].
    unfold namedGenericRule in H.
    repeat match type of H with
           | (if ?b then _ else _) = _ => destruct b
           end;
      try discriminate H;
      repeat (apply bind_Normal_inv in H as (? & _ & H));
      discriminate H.
  - unfold constituentsRule in H.
    apply bind_Normal_inv in H as (nodes & _ & H). discriminate H.
  - unfold constituentsRule in H.
    apply bind_Normal_inv in H as (nodes & _ & H). discriminate H.
Qed.

(** C6, amended.  A type at the is-literal step (a type that [isLiteral()]
    accepts and that no earlier step takes) classifies to [literal] of its
    value unchanged, the very string or number; when the value is the sign
    and the decimal digits of a big integer, to [literal] of the signed
    integer those digits denote: the sign and the digits of an integer [z]
    give back [z].  A type that [isLiteral()] rejects, as the boolean literal
    types do, never classifies to a [literal]; when no other step takes the
    type, it is an unsupported type. *)
Theorem literal_value (fuel : nat) (ref : TypeRef) :
  (dispatch TS (heap ref) = Some IsLiteral ->
   match value (heap ref) with
   | JsPseudoBigInt p =>
       isDigitString (base10Value p) = true ->
       run (S fuel) ref = Normal (Core.literal (JsBigInt (signedValue p)))
   | scalar => run (S fuel) ref = Normal (Core.literal scalar)
   end
   /\ (forall z,
         value (heap ref) = JsPseudoBigInt (pseudoBigIntOf z) ->
         run (S fuel) ref = Normal (Core.literal (JsBigInt z))))
  /\ (isLiteral (heap ref) = false ->
      (forall v, run fuel ref <> Normal (Core.literal v))
      /\ ((forall step, step <> IsLiteral -> matches TS (heap ref) step = false) ->
          run (S fuel) ref = Throw (Error ("Unknown type: " ++ typeToString checker ref)))).
Proof.
  split.
  - intros Hstep. rewrite fromType_rule, Hstep. cbn [rule]. unfold literalRule.
    split.
    + destruct (value (heap ref)) as [s | n | b | z | p]; try reflexivity.
      intros Hdigits. rewrite (BigInt_PseudoBigInt p Hdigits). reflexivity.
    + intros z ->.
      rewrite (BigInt_PseudoBigInt (pseudoBigIntOf z) (decimalDigits_isDigitString _)).
      rewrite signedValue_pseudoBigIntOf. reflexivity.
  - intros Hliteral. split.
    + intros v Hrun. destruct fuel as [| fuel']; [discriminate Hrun |].
      apply literal_node_step, dispatch_matches in Hrun. simpl in Hrun.
      rewrite Hliteral in Hrun. discriminate Hrun.
    + intros Hnone. rewrite fromType_rule.
      assert (Hstep : dispatch TS (heap ref) = None).
      { unfold dispatch, priority. cbn [find].
        change (matches TS (heap ref) IsLiteral) with (isLiteral (heap ref)).
        rewrite Hliteral.
        rewrite (Hnone IsString), (Hnone IsNumber), (Hnone IsBoolean), (Hnone IsUnknown),
          (Hnone IsAny), (Hnone IsBigInt), (Hnone IsObject), (Hnone HasSymbol),
          (Hnone IsUnion), (Hnone IsIntersection) by discriminate.
        reflexivity. }
      rewrite Hstep. reflexivity.
Qed.

(** C7, amended.  The classifier throws its own error in two cases: at a
    type classified at the step of the symbol (no earlier test, the one of
    the object flag among them, takes it) whose symbol has a name that is not
    recognized, with the name in the message, and at a type that passes no
    test, with the printed type in the message.  What a call throws is the
    unchanged failure that starts at the type or at a type nested in it,
    where a failure starts as one of the two errors, as the [TypeError] of a
    missing type argument or as the [SyntaxError] of malformed digits.  A
    call that ends and meets no such type returns a node.  No failure is
    caught: a call throws [e] exactly when it throws [e] itself or the first
    of its nested calls that does not return a node throws [e]; and no
    partial node is returned: a call returns a node only when every nested
    call returned one. *)
Theorem failure_cases (fuel : nat) (ref : TypeRef) :
  (forall symbol,
      dispatch TS (heap ref) = Some HasSymbol ->
      getSymbol (heap ref) = Some symbol ->
      requiredArguments (name symbol) = None ->
      run (S fuel) ref = Throw (Error ("Unknown symbol name: " ++ name symbol)))
  /\ (dispatch TS (heap ref) = None ->
      run (S fuel) ref = Throw (Error ("Unknown type: " ++ typeToString checker ref)))
  /\ (forall e,
        run fuel ref = Throw e ->
        exists origin,
          reaches heap locationNode checker ref origin
          /\ failsAt TS heap checker origin e)
  /\ (run fuel ref <> OutOfFuel ->
      (forall origin e,
          reaches heap locationNode checker ref origin ->
          ~ failsAt TS heap checker origin e) ->
      exists node, run fuel ref = Normal node)
  /\ (forall e,
        run (S fuel) ref = Throw e
        <-> throwsItself TS heap checker ref e
            \/ firstFailure TS heap locationNode checker fuel ref e)
  /\ (forall node,
        run (S fuel) ref = Normal node ->
        Forall (returns TS heap locationNode checker fuel)
               (nestedCalls TS heap locationNode checker ref)).
Proof.
  split; [| split; [| split; [| split; [| split]]]].
  - intros symbol Hstep Hsymbol Hname.
    rewrite fromType_rule, Hstep. cbn [rule]. rewrite Hsymbol.
    unfold namedGenericRule. unfold requiredArguments in Hname.
    repeat match goal with
           | |- (if ?b then _ else _) = _ => destruct b; try discriminate Hname
           end.
    reflexivity.
  - intros Hstep. rewrite fromType_rule, Hstep. reflexivity.
  - apply failure_from.
  - intros Hends Hnone.
    destruct (run fuel ref) as [node | e |] eqn:Hrun.
    + exists node. reflexivity.
    + apply failure_from in Hrun as (origin & Hreach & Hfails).
      destruct (Hnone origin e Hreach Hfails).
    + destruct (Hends eq_refl).
  - apply run_Throw_iff.
  - apply run_Normal_calls.
Qed.

(** C10.  The type arguments are read by index without a test of their
    number: when a type at the step of the nominal symbol has a recognized
    name and fewer type arguments than its branch reads, the read of the
    first missing one gives [undefined], the classifier classifies the
    arguments present and then calls itself on [undefined], which throws a
    [TypeError] and not the error for unsupported types; no node is
    returned. *)
Theorem missing_type_argument_recursion (fuel : nat) (ref : TypeRef) (symbol : Symbol)
    (required : nat) :
  dispatch TS (heap ref) = Some HasSymbol ->
  getSymbol (heap ref) = Some symbol ->
  requiredArguments (name symbol) = Some required ->
  (List.length (getTypeArguments checker ref) < required)%nat ->
  let typeArguments := getTypeArguments checker ref in
  nth_error typeArguments (List.length typeArguments) = None
  /\ run (S fuel) ref
     = (_ <- mapM (fun argument => classify fuel (Some argument)) typeArguments ;;
        classify fuel None)
  /\ classify fuel None = Throw TypeError
  /\ forall node, run (S fuel) ref <> Normal node.
Proof.
  intros Hstep Hsymbol Hrequired Hfew typeArguments.
  assert (Hundefined : classify fuel None = Throw TypeError)
    by apply fromType_undefined.
  assert (Hrun : run (S fuel) ref
                 = (_ <- mapM (fun argument => classify fuel (Some argument)) typeArguments ;;
                    classify fuel None)).
  { rewrite fromType_rule, Hstep. cbn [rule]. rewrite Hsymbol.
    unfold namedGenericRule, requiredArguments in *. fold typeArguments in Hfew |- *.
    destruct (String.eqb (name symbol) "Array" || String.eqb (name symbol) "ReadonlyArray").
    { injection Hrequired as <-.
      destruct typeArguments as [| a rest]; [| simpl in Hfew; lia].
      simpl. rewrite Hundefined. reflexivity. }
    destruct (String.eqb (name symbol) "Date").
    { injection Hrequired as <-. lia. }
    destruct (String.eqb (name symbol) "Set").
    { injection Hrequired as <-.
      destruct typeArguments as [| a rest]; [| simpl in Hfew; lia].
      simpl. rewrite Hundefined. reflexivity. }
    assert (Htwo : (List.length typeArguments < 2)%nat ->
              (key <- classify fuel (nth_error typeArguments 0) ;;
               value <- classify fuel (nth_error typeArguments 1) ;;
               Throw TypeError)
              = (_ <- mapM (fun argument => classify fuel (Some argument)) typeArguments ;;
                 classify fuel None)).
    { intros Hlen. destruct typeArguments as [| a [| b rest]]; [| | simpl in Hlen; lia].
      - simpl. rewrite Hundefined. reflexivity.
      - simpl. rewrite Hundefined.
        destruct (classify fuel (Some a)); reflexivity. }
    assert (Hdrop : forall build : AnyNode -> AnyNode -> AnyNode,
              (List.length typeArguments < 2)%nat ->
              (key <- classify fuel (nth_error typeArguments 0) ;;
               value <- classify fuel (nth_error typeArguments 1) ;;
               Normal (build key value))
              = (key <- classify fuel (nth_error typeArguments 0) ;;
                 value <- classify fuel (nth_error typeArguments 1) ;;
                 Throw TypeError)).
    { intros build Hlen. destruct typeArguments as [| a [| b rest]]; [| | simpl in Hlen; lia].
      - simpl. rewrite Hundefined. reflexivity.
      - simpl. rewrite Hundefined. reflexivity. }
    destruct (String.eqb (name symbol) "Record").
    { injection Hrequired as <-. rewrite Hdrop by exact Hfew. apply Htwo. exact Hfew. }
    destruct (String.eqb (name symbol) "Map").
    { injection Hrequired as <-. rewrite Hdrop by exact Hfew. apply Htwo. exact Hfew. }
    discriminate. }
  split; [apply nth_error_None; apply Nat.le_refl |].
  split; [exact Hrun |]. split; [exact Hundefined |].
  intros node. rewrite Hrun, Hundefined.
  destruct (mapM _ typeArguments); discriminate.
Qed.

End Claims.

(** The type 15 of [Example.knot] refers to itself, and no call depth is
    enough for it. *)
Lemma knot_diverges (fuel : nat) :
  fromType Example.TS Example.knot fuel (Some 15%nat) tt Example.checker = OutOfFuel.
Proof.
  induction fuel as [| fuel IH]; [reflexivity |].
  rewrite fromType_rule.
  change (dispatch Example.TS (Example.knot 15)) with (Some IsObject).
  cbn [rule]. unfold compositeObjectRule.
  change (isTupleReference Example.TS Example.knot (Example.knot 15)) with false.
  unfold plainObjectRule.
  change (getProperties (Example.knot 15)) with [Example.sym_self].
  cbn [mapM]. unfold propertyEntry at 1. unfold memberNode at 1.
  change (typeOfSymbol tt Example.checker Example.sym_self) with 15%nat.
  unfold classifyAt at 1. unfold TypeRef in *. rewrite IH. reflexivity.
Qed.

(** C8.  There is no guard on the recursion.  On a graph without cycles the
    classification of a type ends, with one and the same outcome for every
    call depth above the nesting depth of the type; on a graph where a type
    refers to itself the classification runs out of every call depth. *)
Theorem recursion_without_guard :
  (forall (Node_ : Type) (TS : ts) (heap : TypeRef -> Type_) (locationNode : Node_)
          (checker : TypeChecker Node_) (depth : TypeRef -> nat),
      acyclic heap locationNode checker depth ->
      forall ref,
      exists outcome,
        outcome <> OutOfFuel
        /\ forall fuel, (depth ref < fuel)%nat ->
                        fromType TS heap fuel (Some ref) locationNode checker = outcome)
  /\ (exists (TS : ts) (heap : TypeRef -> Type_) (checker : TypeChecker unit)
             (ref : TypeRef),
        In ref (constituents heap tt checker ref)
        /\ forall fuel, fromType TS heap fuel (Some ref) tt checker = OutOfFuel).
Proof.
  split.
  - intros Node_ TS heap locationNode checker depth Hacyclic ref.
    exists (fromType TS heap (S (depth ref)) (Some ref) locationNode checker).
    split.
    + apply (acyclic_returns TS heap locationNode checker depth Hacyclic). lia.
    + intros fuel Hfuel.
      destruct (fromType_more_fuel TS heap locationNode checker
                  (S (depth ref)) fuel (Some ref) Hfuel) as [H | H].
      * exfalso. revert H.
        apply (acyclic_returns TS heap locationNode checker depth Hacyclic). lia.
      * exact H.
  - exists Example.TS, Example.knot, Example.checker, 15%nat.
    split; [left; reflexivity | exact knot_diverges].
Qed.

(** C9.  The empty tuple type [[]], whose only member is [length], makes the
    classifier call [tuple] with the empty list. *)
Theorem empty_tuple_elements :
  dispatch Example.TS (Example.heap 16) = Some IsObject
  /\ isTupleReference Example.TS Example.heap (Example.heap 16) = true
  /\ List.map name (getProperties (Example.heap 16)) = ["length"%string]
  /\ forall fuel, Example.classify (S fuel) 16 = Normal (Core.tuple []).
Proof.
  split; [reflexivity |]. split; [reflexivity |]. split; [reflexivity |].
  intros fuel. reflexivity.
Qed.

(** ** The example program *)

(** The two examples of the specification: [{ a: string, b?: number }] and
    ["x" | "y"]. *)
Example classify_object_type :
  Example.classify 2 5
  = Normal (Core.object [("a"%string, Core.string);
                         ("b"%string, Core.optional Core.number)]).
Proof.
  reflexivity.
Qed.

Example classify_literal_union :
  Example.classify 2 4
  = Normal (Core.union [Core.literal (JsString "x"); Core.literal (JsString "y")]).
Proof.
  reflexivity.
Qed.

(** The graph of [Example.heap] has no cycle. *)
Lemma example_acyclic : acyclic Example.heap tt Example.checker Example.depth.
Proof.
  intros ref inner.
  do 25 (destruct ref as [| ref]; [cbn; intuition (subst; cbn; lia) |]).
  cbn. intuition.
Qed.

(** The tuple type [[string, number?]] has the is-object flag and no call
    signature, and classifies to a tuple, at no call depth to an object.
    The object type whose members are reported as [b], [1], [0] classifies
    to an object with the properties [0], [1], [b], in this order. *)
Lemma object_combination_counterexample :
  hasFlag (Example.heap 6) (TypeFlags.Object (ts_TypeFlags Example.TS)) = true
  /\ getCallSignatures (Example.heap 6) = []
  /\ (forall fuel,
        Example.classify (S (S fuel)) 6
        = Normal (Core.tuple [Core.string; Core.optional Core.number]))
  /\ (forall fuel propertyMap,
        Example.classify fuel 6 <> Normal (Core.object propertyMap))
  /\ List.map name (getProperties (Third.heap 42)) = ["b"; "1"; "0"]%string
  /\ (forall fuel,
        Third.classify (S (S fuel)) 42
        = Normal (Core.object [("0"%string, Core.string);
                               ("1"%string, Core.optional Core.number);
                               ("b"%string, Core.optional Core.number)])).
Proof.
  split; [reflexivity |]. split; [reflexivity |]. split; [reflexivity |].
  split; [intros [| [| fuel]] propertyMap; discriminate |].
  split; [reflexivity |]. intros fuel. reflexivity.
Qed.

(** [((x: string) => number) & { b?: number }], and
    [{ b?: number, 1?: number, 0: string }], whose members have distinct
    names. *)
Lemma object_combination_witness :
  (exists node,
     Some (Core.func [Core.string] Core.number) = Some node
     /\ Example.classify 2 8
        = Normal (Core.intersection
                    [node; Core.object (fromEntries [("b"%string, Core.optional Core.number)])]))
  /\ (let propertyMap := [("b"%string, Core.optional Core.number);
                          ("1"%string, Core.optional Core.number);
                          ("0"%string, Core.string)] in
      Third.classify 2 42 = Normal (Core.object (fromEntries propertyMap))
      /\ exists indexed,
           Permutation indexed (filter isIndexed propertyMap)
           /\ StronglySorted indexBefore indexed
           /\ fromEntries propertyMap
              = indexed ++ filter (fun entry => negb (isIndexed entry)) propertyMap).
Proof.
  split.
  - refine (proj1 (object_combination Example.TS Example.heap tt Example.checker 1 8
                     [("b"%string, Core.optional Core.number)]
                     (Some (Core.func [Core.string] Core.number)) eq_refl eq_refl _ eq_refl)).
    constructor; [| constructor].
    split; [reflexivity |]. exists Core.number. split; reflexivity.
  - assert (H := object_combination Example.TS Third.heap tt Third.checker 1 42
                   [("b"%string, Core.optional Core.number);
                    ("1"%string, Core.optional Core.number);
                    ("0"%string, Core.string)]
                   None eq_refl eq_refl).
    destruct H as [Hrun Horder].
    + constructor; [| constructor; [| constructor; [| constructor]]].
      * split; [reflexivity |]. exists Core.number. split; reflexivity.
      * split; [reflexivity |]. exists Core.number. split; reflexivity.
      * split; [reflexivity |]. exists Core.string. split; reflexivity.
    + reflexivity.
    + split; [exact (proj2 Hrun) |]. apply Horder.
      repeat constructor; simpl; intuition discriminate.
Defined.

(** [[string, number?]] *)
Lemma tuple_reference_witness :
  Example.classify 2 6 = Normal (Core.tuple [Core.string; Core.optional Core.number]).
Proof.
  apply (proj2 (tuple_reference Example.TS Example.heap tt Example.checker 1 6
                  (Core.tuple [Core.string; Core.optional Core.number]) eq_refl eq_refl)).
  exists [Core.string; Core.optional Core.number].
  split; [reflexivity |]. split; [reflexivity |].
  constructor; [| constructor; [| constructor]].
  - exists Core.string. split; reflexivity.
  - exists Core.number. split; reflexivity.
Defined.

(** The overloads [(x: string) => number] and
    [(x: string, y: number) => string]. *)
Lemma signature_converter_witness :
  getNodeFromCallSignatures (fromType Example.TS Example.heap 1)
    [Example.sig_f; Example.sig_g] tt Example.checker
  = Normal (Some (Core.union [Core.func [Core.string] Core.number;
                              Core.func [Core.string; Core.number] Core.string])).
Proof.
  refine (proj2 (signature_converter Example.TS Example.heap tt Example.checker 1
                   [Example.sig_f; Example.sig_g]
                   [Core.func [Core.string] Core.number;
                    Core.func [Core.string; Core.number] Core.string] _)).
  constructor; [| constructor; [| constructor]].
  - exists [Core.string], Core.number.
    split; [repeat constructor | split; reflexivity].
  - exists [Core.string; Core.number], Core.string.
    split; [repeat constructor | split; reflexivity].
Defined.

(** A type at the step of the symbol, with the name [Array] and the type
    argument [string]. *)
Lemma named_generic_witness :
  Example.classify 2 11 = Normal (Core.array Core.string).
Proof.
  exact (proj1 (named_generic Example.TS Example.heap tt Example.checker 1 11
                  (mkSymbol "Array" 0 100) eq_refl eq_refl)
               (or_introl eq_refl)).
Defined.

(** [any] *)
Lemma dispatch_order_witness : Example.classify 1 25 = Normal Core.any.
Proof.
  refine (proj2 (proj2 (dispatch_order Example.TS Example.heap tt Example.checker 0 25))
            IsAny Core.any eq_refl eq_refl _).
  intros other Hin Hother. simpl in Hin.
  repeat (destruct Hin as [<- | Hin]; [reflexivity || (exfalso; apply Hother; reflexivity) |]).
  destruct Hin.
Defined.

(** The literal type [true]: the compiler gives it the flag
    [BooleanLiteral] and no value, [isLiteral()] rejects it, no step of the
    classifier takes it, and its classification fails; so does that of a
    union with [true] and [false] among its constituents. *)
Lemma literal_value_counterexample :
  flags (Third.heap 40) = Third.BooleanLiteral
  /\ isLiteral (Third.heap 40) = false
  /\ dispatch Example.TS (Third.heap 40) = None
  /\ (forall fuel, Third.classify (S fuel) 40 = Throw (Error "Unknown type: true"))
  /\ (forall fuel node, Third.classify fuel 40 <> Normal node)
  /\ (forall fuel, Third.classify (S (S fuel)) 43 = Throw (Error "Unknown type: false")).
Proof.
  split; [reflexivity |]. split; [reflexivity |]. split; [reflexivity |].
  split; [intros fuel; reflexivity |]. split.
  - intros [| fuel] node; discriminate.
  - intros fuel. reflexivity.
Qed.

(** The literal types ["x"], [42] and [-123n], the last with the sign and
    the digits of -123 as its value; and the type [true], which
    [isLiteral()] rejects. *)
Lemma literal_value_witness :
  Example.classify 1 2 = Normal (Core.literal (JsString "x"))
  /\ Example.classify 1 22 = Normal (Core.literal (JsNumber Example.fortyTwo))
  /\ value (Example.heap 10) = JsPseudoBigInt (pseudoBigIntOf (-123))
  /\ Example.classify 1 10 = Normal (Core.literal (JsBigInt (-123)))
  /\ Third.classify 1 40 = Throw (Error "Unknown type: true").
Proof.
  split; [| split; [| split; [reflexivity | split]]].
  - exact (proj1 (proj1 (literal_value Example.TS Example.heap tt Example.checker 0 2)
                    eq_refl)).
  - exact (proj1 (proj1 (literal_value Example.TS Example.heap tt Example.checker 0 22)
                    eq_refl)).
  - exact (proj1 (proj1 (literal_value Example.TS Example.heap tt Example.checker 0 10)
                    eq_refl)
             eq_refl).
  - refine (proj2 (proj2 (literal_value Example.TS Third.heap tt Third.checker 0 40)
                     eq_refl) _).
    intros step _. destruct step; reflexivity.
Defined.

(** [ReadonlyArray] without type arguments: the type passes the test of the
    symbol, the name is a recognized one and the type has no constituent,
    yet the call fails, with a [TypeError]. *)
Lemma failure_cases_counterexample :
  dispatch Example.TS (Example.heap 12) = Some HasSymbol
  /\ option_map name (getSymbol (Example.heap 12)) = Some "ReadonlyArray"%string
  /\ requiredArguments "ReadonlyArray" = Some 1%nat
  /\ constituents Example.heap tt Example.checker 12 = []
  /\ forall fuel, Example.classify (S fuel) 12 = Throw TypeError.
Proof.
  split; [reflexivity |]. split; [reflexivity |]. split; [reflexivity |].
  split; [reflexivity |]. intros [| fuel]; reflexivity.
Qed.

(** The unknown name [Foo] and the type [void]; the callable type with the
    members [a], [bad] and [self], where the call on the type [void] of
    [bad] is the first that does not return; and the type
    [{ a: string, b?: number }], both of whose nested calls return. *)
Lemma failure_cases_witness :
  Example.classify 1 13 = Throw (Error "Unknown symbol name: Foo")
  /\ Example.classify 1 14 = Throw (Error "Unknown type: void")
  /\ (exists origin,
        reaches Example.heap tt Example.checker 14 origin
        /\ failsAt Example.TS Example.heap Example.checker origin
             (Error "Unknown type: void"))
  /\ nestedCalls Example.TS More.heap tt Example.checker 30
     = [Some 0; Some 14; Some 15; Some 0; Some 1]%nat
  /\ More.classify 2 30 = Throw (Error "Unknown type: void")
  /\ Forall (returns Example.TS Example.heap tt Example.checker 1) [Some 0; Some 1]%nat.
Proof.
  split; [| split; [| split; [| split; [reflexivity | split]]]].
  - exact (proj1 (failure_cases Example.TS Example.heap tt Example.checker 0 13)
             (mkSymbol "Foo" 0 100) eq_refl eq_refl eq_refl).
  - exact (proj1 (proj2 (failure_cases Example.TS Example.heap tt Example.checker 0 14))
             eq_refl).
  - exact (proj1 (proj2 (proj2 (failure_cases Example.TS Example.heap tt Example.checker 1 14)))
             (Error "Unknown type: void") eq_refl).
  - apply (proj1 (proj2 (proj2 (proj2 (proj2
             (failure_cases Example.TS More.heap tt Example.checker 1 30)))))
             (Error "Unknown type: void")).
    right. exists [Some 0%nat], (Some 14%nat), [Some 15; Some 0; Some 1]%nat.
    split; [reflexivity |]. split; [| reflexivity].
    constructor; [| constructor]. exists Core.string. reflexivity.
  - exact (proj2 (proj2 (proj2 (proj2 (proj2
             (failure_cases Example.TS Example.heap tt Example.checker 1 5)))))
             (Core.object [("a"%string, Core.string);
                           ("b"%string, Core.optional Core.number)])
             eq_refl).
Defined.

(** The intersection 24 of [Example.heap] nests two levels of types: its
    classification ends at the call depths above 2, and not at 2. *)
Lemma recursion_without_guard_witness :
  Example.classify (Example.depth 24) 24 = OutOfFuel
  /\ exists outcome,
       outcome <> OutOfFuel
       /\ forall fuel, (Example.depth 24 < fuel)%nat -> Example.classify fuel 24 = outcome.
Proof.
  split; [reflexivity |].
  exact (proj1 recursion_without_guard unit Example.TS Example.heap tt Example.checker
           Example.depth example_acyclic 24%nat).
Defined.

(** [Record] with one type argument. *)
Lemma missing_type_argument_recursion_witness :
  nth_error (getTypeArguments Example.checker 18) 1 = None
  /\ Example.classify 2 18 = Throw TypeError
  /\ forall node, Example.classify 2 18 <> Normal node.
Proof.
  destruct (missing_type_argument_recursion Example.TS Example.heap tt Example.checker 1 18
              (mkSymbol "Record" 0 100) 2 eq_refl eq_refl eq_refl (le_n 2))
    as (Hmissing & Hrun & Hundefined & Hnode).
  split; [exact Hmissing |]. split; [exact Hrun | exact Hnode].
Defined.

(** ** Further properties of the source *)

(** *** The flag tests *)

Lemma ToInt32_small (z : Z) : 0 <= z < 2 ^ 31 -> ToInt32 z = z.
Proof.
  intros H. unfold ToInt32. rewrite Z.mod_small by lia.
  destruct (Z.ltb_spec z (2 ^ 31)); lia.
Qed.

Lemma ToInt32_range (z : Z) : - 2 ^ 31 <= ToInt32 z < 2 ^ 31.
Proof.
  unfold ToInt32. pose proof (Z.mod_pos_bound z (2 ^ 32) ltac:(lia)) as H.
  destruct (Z.ltb_spec (z mod 2 ^ 32) (2 ^ 31)); lia.
Qed.

Lemma log2_small (a : Z) : 0 <= a < 2 ^ 31 -> Z.log2 a < 31.
Proof.
  intros H. destruct (Z.eq_dec a 0) as [-> | Hne]; [simpl; lia |].
  apply Z.log2_lt_pow2; lia.
Qed.

Lemma land_small (a f : Z) : 0 <= a < 2 ^ 31 -> 0 <= f < 2 ^ 31 -> 0 <= Z.land a f < 2 ^ 31.
Proof.
  intros Ha Hf.
  assert (Hnonneg : 0 <= Z.land a f) by (apply Z.land_nonneg; lia).
  split; [exact Hnonneg |].
  destruct (Z.eq_dec (Z.land a f) 0) as [-> | Hne]; [lia |].
  apply Z.log2_lt_pow2; [lia |].
  pose proof (Z.log2_land a f (proj1 Ha) (proj1 Hf)).
  pose proof (log2_small a Ha). lia.
Qed.

Lemma lor_small (a b : Z) : 0 <= a < 2 ^ 31 -> 0 <= b < 2 ^ 31 -> 0 <= Z.lor a b < 2 ^ 31.
Proof.
  intros Ha Hb.
  assert (Hnonneg : 0 <= Z.lor a b) by (apply Z.lor_nonneg; lia).
  split; [exact Hnonneg |].
  destruct (Z.eq_dec (Z.lor a b) 0) as [-> | Hne]; [lia |].
  apply Z.log2_lt_pow2; [lia |].
  rewrite Z.log2_lor by lia.
  pose proof (log2_small a Ha). pose proof (log2_small b Hb). lia.
Qed.

Lemma bitand_small (a f : Z) : 0 <= a < 2 ^ 31 -> 0 <= f < 2 ^ 31 -> bitand a f = Z.land a f.
Proof.
  intros Ha Hf. unfold bitand. rewrite (ToInt32_small a Ha), (ToInt32_small f Hf).
  apply ToInt32_small. apply land_small; assumption.
Qed.

Lemma land_all_bits (a f : Z) :
  Z.land a f = f <-> forall i, Z.testbit f i = true -> Z.testbit a i = true.
Proof.
  split.
  - intros H i Hi. rewrite <- H in Hi. rewrite Z.land_spec in Hi.
    apply andb_true_iff in Hi. apply Hi.
  - intros H. apply Z.bits_inj'. intros i _. rewrite Z.land_spec.
    destruct (Z.testbit f i) eqn:Hf; [rewrite (H i Hf); reflexivity | apply andb_false_r].
Qed.

Lemma test_bits (a f : Z) :
  0 <= a < 2 ^ 31 -> 0 <= f < 2 ^ 31 ->
  (bitand a f =? f) = true <-> forall i, Z.testbit f i = true -> Z.testbit a i = true.
Proof.
  intros Ha Hf. rewrite (bitand_small a f Ha Hf), Z.eqb_eq. apply land_all_bits.
Qed.

Lemma test_lor (x a b : Z) :
  0 <= x < 2 ^ 31 -> 0 <= a < 2 ^ 31 -> 0 <= b < 2 ^ 31 ->
  (bitand x (Z.lor a b) =? Z.lor a b) = (bitand x a =? a) && (bitand x b =? b).
Proof.
  intros Hx Ha Hb. apply eq_true_iff_eq.
  rewrite andb_true_iff, !test_bits by (assumption || apply lor_small; assumption).
  split.
  - intros H. split; intros i Hi; apply H; rewrite Z.lor_spec, Hi;
      [reflexivity | apply orb_true_r].
  - intros [H1 H2] i Hi. rewrite Z.lor_spec in Hi. apply orb_true_iff in Hi as [Hi | Hi]; auto.
Qed.

Lemma test_out_of_range (a f : Z) : f < - 2 ^ 31 \/ 2 ^ 31 <= f -> (bitand a f =? f) = false.
Proof.
  intros H. apply Z.eqb_neq. unfold bitand.
  pose proof (ToInt32_range (Z.land (ToInt32 a) (ToInt32 f))). lia.
Qed.

(** X1.  For flags in the range of the non-negative 32-bit integers, each of
    the three tests holds exactly when every bit of [flag] is a bit of the
    flags of the type or symbol: one common bit is not enough. *)
Theorem flag_tests_read_bits (flag : Z) :
  0 <= flag < 2 ^ 31 ->
  (forall type, 0 <= flags type < 2 ^ 31 ->
     (hasFlag type flag = true
      <-> forall i, Z.testbit flag i = true -> Z.testbit (flags type) i = true))
  /\ (forall symbol, 0 <= symbolFlags symbol < 2 ^ 31 ->
        (hasSymbolFlag symbol flag = true
         <-> forall i, Z.testbit flag i = true -> Z.testbit (symbolFlags symbol) i = true))
  /\ (forall type, 0 <= objectFlags type < 2 ^ 31 ->
        (hasObjectFlag type flag = true
         <-> forall i, Z.testbit flag i = true -> Z.testbit (objectFlags type) i = true)).
Proof.
  intros Hflag. repeat split; intros; try (apply test_bits; assumption);
    match goal with H : _ = true |- _ => revert H end; apply test_bits; assumption.
Qed.

(** X2.  A flag made of two flags is found exactly when both are. *)
Theorem composite_flag (a b : Z) :
  0 <= a < 2 ^ 31 -> 0 <= b < 2 ^ 31 ->
  (forall type, 0 <= flags type < 2 ^ 31 ->
     hasFlag type (Z.lor a b) = hasFlag type a && hasFlag type b)
  /\ (forall symbol, 0 <= symbolFlags symbol < 2 ^ 31 ->
        hasSymbolFlag symbol (Z.lor a b) = hasSymbolFlag symbol a && hasSymbolFlag symbol b)
  /\ (forall type, 0 <= objectFlags type < 2 ^ 31 ->
        hasObjectFlag type (Z.lor a b) = hasObjectFlag type a && hasObjectFlag type b).
Proof.
  intros Ha Hb. repeat split; intros; apply test_lor; assumption.
Qed.

(** X3.  A flag outside the signed 32-bit integers is never found, whatever
    the flags of the type or symbol: [&] gives a signed 32-bit integer. *)
Theorem flag_out_of_range (flag : Z) :
  flag < - 2 ^ 31 \/ 2 ^ 31 <= flag ->
  (forall type, hasFlag type flag = false)
  /\ (forall symbol, hasSymbolFlag symbol flag = false)
  /\ (forall type, hasObjectFlag type flag = false).
Proof.
  intros H. repeat split; intros; apply test_out_of_range; exact H.
Qed.

(** *** Lists of completions *)

Lemma mapM_first_Throw {A B : Type} (f : A -> Completion B) (before after : list A)
    (x : A) (e : Thrown) :
  Forall (fun y => exists b, f y = Normal b) before ->
  f x = Throw e ->
  mapM f (before ++ x :: after) = Throw e.
Proof.
  intros Hbefore Hx. induction Hbefore as [| y before [b Hy] _ IH]; simpl.
  - rewrite Hx. reflexivity.
  - rewrite Hy. simpl. rewrite IH. reflexivity.
Qed.

Lemma mapM_forallb {A B : Type} (f : A -> Completion B) (P : B -> bool)
    (xs : list A) (ys : list B) :
  (forall x y, In x xs -> f x = Normal y -> P y = true) ->
  mapM f xs = Normal ys -> forallb P ys = true.
Proof.
  intros HP H. apply mapM_Normal_iff in H.
  induction H as [| x y xs ys Hxy _ IH]; simpl; [reflexivity |].
  rewrite (HP x y (or_introl eq_refl) Hxy). apply IH.
  intros x' y' Hin. apply HP. right. exact Hin.
Qed.

(** *** Objects *)

Lemma setProperty_names (o : JsObject) (k : String.string) (v : AnyNode) :
  List.map fst (setProperty o k v) = List.map fst o.
Proof.
  induction o as [| [k' v'] rest IH]; simpl; [reflexivity |].
  destruct (String.eqb k' k); simpl; [reflexivity | rewrite IH; reflexivity].
Qed.

Lemma addProperty_split (o : JsObject) (k : String.string) (v : AnyNode) :
  exists before after,
    o = before ++ after
    /\ addProperty o k v = before ++ (k, v) :: after
    /\ Forall (fun entry => precedes k (fst entry) = false) before
    /\ match after with
       | [] => True
       | entry :: _ => precedes k (fst entry) = true
       end.
Proof.
  induction o as [| [k' v'] rest (before & after & Ho & Hadd & Hbefore & Hafter)]; simpl.
  - exists [], []. repeat split; constructor.
  - destruct (precedes k k') eqn:Hp.
    + exists [], ((k', v') :: rest). repeat split; [constructor | exact Hp].
    + exists ((k', v') :: before), after. subst rest. rewrite Hadd.
      repeat split; [constructor; assumption | exact Hafter].
Qed.

Lemma defineProperty_In (o : JsObject) (k k' : String.string) (v : AnyNode) :
  In k' (List.map fst (defineProperty o k v)) <-> In k' (List.map fst o) \/ k' = k.
Proof.
  unfold defineProperty. destruct (hasProperty o k) eqn:Hk.
  - rewrite setProperty_names. apply hasProperty_In in Hk.
    split; [auto | intros [H | ->]; assumption].
  - destruct (addProperty_split o k v) as (before & after & -> & -> & _).
    rewrite !map_app. simpl. rewrite !in_app_iff. simpl. intuition.
Qed.

Lemma defineProperty_NoDup (o : JsObject) (k : String.string) (v : AnyNode) :
  NoDup (List.map fst o) -> NoDup (List.map fst (defineProperty o k v)).
Proof.
  intros H. unfold defineProperty. destruct (hasProperty o k) eqn:Hk.
  - rewrite setProperty_names. exact H.
  - assert (Hnot : ~ In k (List.map fst o)).
    { intros Hin. apply hasProperty_In in Hin. congruence. }
    destruct (addProperty_split o k v) as (before & after & -> & -> & _).
    rewrite map_app in *. simpl.
    apply (Permutation_NoDup (Permutation_middle _ _ _)). constructor; assumption.
Qed.

Lemma getProperty_setProperty (o : JsObject) (k k' : String.string) (v : AnyNode) :
  hasProperty o k = true ->
  getProperty (setProperty o k v) k' = if String.eqb k k' then Some v else getProperty o k'.
Proof.
  unfold hasProperty. induction o as [| [k0 v0] rest IH]; simpl; [discriminate |].
  destruct (String.eqb_spec k0 k) as [-> | Hne]; simpl.
  - intros _. destruct (String.eqb k k'); reflexivity.
  - intros H. rewrite (IH H).
    destruct (String.eqb_spec k0 k') as [-> | Hne'].
    + destruct (String.eqb_spec k k') as [-> | _]; [contradiction | reflexivity].
    + reflexivity.
Qed.

Lemma getProperty_addProperty (o : JsObject) (k k' : String.string) (v : AnyNode) :
  hasProperty o k = false ->
  getProperty (addProperty o k v) k' = if String.eqb k k' then Some v else getProperty o k'.
Proof.
  unfold hasProperty. induction o as [| [k0 v0] rest IH]; simpl; [reflexivity |].
  intros H. apply orb_false_iff in H as [Hk0 Hrest].
  destruct (precedes k k0); simpl; [reflexivity |].
  rewrite (IH Hrest).
  destruct (String.eqb_spec k0 k') as [-> | Hne'].
  - rewrite String.eqb_sym, Hk0. reflexivity.
  - reflexivity.
Qed.

Lemma getProperty_defineProperty (o : JsObject) (k k' : String.string) (v : AnyNode) :
  getProperty (defineProperty o k v) k'
  = if String.eqb k k' then Some v else getProperty o k'.
Proof.
  unfold defineProperty. destruct (hasProperty o k) eqn:Hk.
  - apply getProperty_setProperty. exact Hk.
  - apply getProperty_addProperty. exact Hk.
Qed.

Lemma getProperty_app (o o' : JsObject) (k : String.string) :
  getProperty (o ++ o') k
  = match getProperty o k with
    | Some v => Some v
    | None => getProperty o' k
    end.
Proof.
  induction o as [| [k0 v0] rest IH]; simpl; [reflexivity |].
  destruct (String.eqb k0 k); [reflexivity | exact IH].
Qed.

Lemma fromEntries_from (entries o : JsObject) :
  let result := fold_left (fun o e => defineProperty o (fst e) (snd e)) entries o in
  (NoDup (List.map fst o) -> NoDup (List.map fst result))
  /\ (forall k, In k (List.map fst result)
                <-> In k (List.map fst o) \/ In k (List.map fst entries))
  /\ (forall k, getProperty result k
                = match getProperty (rev entries) k with
                  | Some v => Some v
                  | None => getProperty o k
                  end).
Proof.
  revert o. induction entries as [| [k v] rest IH]; intros o; cbn zeta.
  - simpl. repeat split; tauto.
  - cbn [fold_left fst snd]. destruct (IH (defineProperty o k v)) as (Hdup & Hin & Hget).
    split; [| split].
    + intros H. apply Hdup. apply defineProperty_NoDup. exact H.
    + intros k'. rewrite Hin, defineProperty_In. simpl. intuition.
    + intros k'. rewrite Hget. cbn [rev]. rewrite getProperty_app.
      destruct (getProperty (rev rest) k'); [reflexivity |].
      rewrite getProperty_defineProperty. simpl.
      destruct (String.eqb k k'); reflexivity.
Qed.

(** The object of a list of entries: no name twice, the names of the
    entries, and for each name the value of the last entry with it. *)
Lemma fromEntries_object (entries : JsObject) :
  NoDup (List.map fst (fromEntries entries))
  /\ (forall k, In k (List.map fst (fromEntries entries)) <-> In k (List.map fst entries))
  /\ (forall k, getProperty (fromEntries entries) k = getProperty (rev entries) k).
Proof.
  destruct (fromEntries_from entries []) as (Hdup & Hin & Hget).
  unfold fromEntries. split; [| split].
  - apply Hdup. constructor.
  - intros k. rewrite (Hin k). simpl. tauto.
  - intros k. rewrite (Hget k). destruct (getProperty (rev entries) k); reflexivity.
Qed.

Lemma forallb_defineProperty (P : AnyNode -> bool) (o : JsObject) (k : String.string)
    (v : AnyNode) :
  forallb (fun entry => P (snd entry)) o = true -> P v = true ->
  forallb (fun entry => P (snd entry)) (defineProperty o k v) = true.
Proof.
  intros Ho Hv. unfold defineProperty. destruct (hasProperty o k).
  - induction o as [| [k' v'] rest IH]; simpl in *; [reflexivity |].
    apply andb_true_iff in Ho as [Hv' Hrest].
    destruct (String.eqb k' k); simpl.
    + rewrite Hv, Hrest. reflexivity.
    + rewrite Hv', (IH Hrest). reflexivity.
  - induction o as [| [k' v'] rest IH]; simpl in *.
    + rewrite Hv. reflexivity.
    + apply andb_true_iff in Ho as [Hv' Hrest].
      destruct (precedes k k'); simpl.
      * rewrite Hv, Hv', Hrest. reflexivity.
      * rewrite Hv', (IH Hrest). reflexivity.
Qed.

Lemma forallb_fromEntries (P : AnyNode -> bool) (entries : JsObject) :
  forallb (fun entry => P (snd entry)) entries = true ->
  forallb (fun entry => P (snd entry)) (fromEntries entries) = true.
Proof.
  unfold fromEntries.
  assert (H : forall o,
             forallb (fun entry => P (snd entry)) o = true ->
             forallb (fun entry => P (snd entry)) entries = true ->
             forallb (fun entry => P (snd entry))
               (fold_left (fun o e => defineProperty o (fst e) (snd e)) entries o) = true).
  { induction entries as [| [k v] rest IH]; intros o Ho He; simpl in *; [exact Ho |].
    apply andb_true_iff in He as [Hv Hrest].
    apply IH; [apply forallb_defineProperty; assumption | exact Hrest]. }
  apply H. reflexivity.
Qed.

(** *** The classifier *)

Section Further.

Context {Node_ : Type}.
Variable TS : ts.
Variable heap : TypeRef -> Type_.
Variable locationNode : Node_.
Variable checker : TypeChecker Node_.

Local Abbreviation classify := (classifyAt TS heap locationNode checker).
Local Abbreviation run fuel ref := (fromType TS heap fuel (Some ref) locationNode checker).
Local Abbreviation typeOf := (typeOfSymbol locationNode checker).

Lemma constituentsRule_Normal (fuel : nat) (build : list AnyNode -> AnyNode)
    (type : Type_) (node : AnyNode) :
  constituentsRule (classify fuel) build type = Normal node
  <-> exists nodes,
        node = build nodes
        /\ Forall2 (fun constituent n => classify fuel (Some constituent) = Normal n)
                   (types type) nodes.
Proof.
  unfold constituentsRule. split.
  - intros H. apply bind_Normal_inv in H as (nodes & Hnodes & H).
    injection H as <-. exists nodes. split; [reflexivity |].
    apply mapM_Normal_iff in Hnodes. exact Hnodes.
  - intros (nodes & -> & H). apply mapM_Normal_iff in H. rewrite H. reflexivity.
Qed.

(** X4.  A type at the is-union step returns a node exactly when every
    constituent classifies, and the node is then [union] of the nodes of the
    constituents: one node for each, in their order, nothing merged or
    flattened. *)
Theorem union_constituents (fuel : nat) (ref : TypeRef) (node : AnyNode) :
  dispatch TS (heap ref) = Some IsUnion ->
  run (S fuel) ref = Normal node
  <-> exists nodes,
        node = Core.union nodes
        /\ Forall2 (fun constituent n => classify fuel (Some constituent) = Normal n)
                   (types (heap ref)) nodes.
Proof.
  intros Hstep. rewrite fromType_rule, Hstep. cbn [rule].
  apply constituentsRule_Normal.
Qed.

(** X5.  The same for a type at the is-intersection step, with
    [intersection]. *)
Theorem intersection_constituents (fuel : nat) (ref : TypeRef) (node : AnyNode) :
  dispatch TS (heap ref) = Some IsIntersection ->
  run (S fuel) ref = Normal node
  <-> exists nodes,
        node = Core.intersection nodes
        /\ Forall2 (fun constituent n => classify fuel (Some constituent) = Normal n)
                   (types (heap ref)) nodes.
Proof.
  intros Hstep. rewrite fromType_rule, Hstep. cbn [rule].
  apply constituentsRule_Normal.
Qed.

Lemma filter_notLength_split (tupleReference : bool) (before after : list Symbol)
    (property : Symbol) :
  tupleReference && negb (notLength property) = false ->
  (if tupleReference then filter notLength (before ++ property :: after)
   else before ++ property :: after)
  = (if tupleReference then filter notLength before else before)
    ++ property :: (if tupleReference then filter notLength after else after).
Proof.
  destruct tupleReference; simpl; [| reflexivity].
  intros H. apply negb_false_iff in H.
  rewrite filter_app. simpl. rewrite H. reflexivity.
Qed.

(** X9.  At the is-object step the members are classified in the order
    reported, and the first one that fails decides: when the members before
    it classify (or are the [length] a tuple reference passes over), the
    type fails with the failure of that member, whatever the later members
    and the call signatures are. *)
Theorem first_member_failure (fuel : nat) (ref : TypeRef) (before after : list Symbol)
    (property : Symbol) (e : Thrown) :
  dispatch TS (heap ref) = Some IsObject ->
  getProperties (heap ref) = before ++ property :: after ->
  Forall (fun earlier =>
            skipped TS heap (heap ref) earlier = true
            \/ exists node, classify fuel (Some (typeOf earlier)) = Normal node)
         before ->
  skipped TS heap (heap ref) property = false ->
  classify fuel (Some (typeOf property)) = Throw e ->
  run (S fuel) ref = Throw e.
Proof.
  intros Hstep Hproperties Hbefore Hproperty He.
  rewrite fromType_rule, Hstep. cbn [rule].
  unfold compositeObjectRule, tupleRule, plainObjectRule, skipped in *.
  rewrite Hproperties.
  pose proof (filter_notLength_split (isTupleReference TS heap (heap ref))
                before after property Hproperty) as Hsplit.
  destruct (isTupleReference TS heap (heap ref)).
  - rewrite Hsplit.
    rewrite (mapM_first_Throw _ _ _ _ e); [reflexivity | |].
    + apply Forall_forall. intros earlier Hin. apply filter_In in Hin as [Hin Hkept].
      rewrite Forall_forall in Hbefore.
      destruct (Hbefore earlier Hin) as [Hskip | [node Hnode]].
      * simpl in Hskip. rewrite Hkept in Hskip. discriminate.
      * unfold memberNode. rewrite Hnode. eexists. reflexivity.
    + unfold memberNode. rewrite He. reflexivity.
  - rewrite (mapM_first_Throw _ _ _ _ e); [reflexivity | |].
    + apply Forall_forall. intros earlier Hin.
      rewrite Forall_forall in Hbefore.
      destruct (Hbefore earlier Hin) as [Hskip | [node Hnode]]; [discriminate |].
      unfold propertyEntry, memberNode. rewrite Hnode. eexists. reflexivity.
    + unfold propertyEntry, memberNode. rewrite He. reflexivity.
Qed.

(** X10.  The signature converter goes through the signatures in order, in
    each through the parameters in order and then to the return type, and
    the first failure decides: with the signatures before classified, the
    converter fails with the failure of the first parameter that fails, or,
    all parameters classified, with the failure of the return type. *)
Theorem first_signature_failure (fuel : nat) (before after : list Signature)
    (signature : Signature) (e : Thrown) :
  Forall (fun earlier =>
            exists node, signatureYields locationNode checker (classify fuel) earlier node)
         before ->
  (exists parametersBefore parameter parametersAfter,
      getParameters signature = parametersBefore ++ parameter :: parametersAfter
      /\ Forall (fun earlier => exists node, classify fuel (Some (typeOf earlier)) = Normal node)
                parametersBefore
      /\ classify fuel (Some (typeOf parameter)) = Throw e)
  \/ ((exists argumentNodes,
         Forall2 (parameterYields locationNode checker (classify fuel))
                 (getParameters signature) argumentNodes)
      /\ classify fuel (Some (getReturnTypeOfSignature checker signature)) = Throw e) ->
  getNodeFromCallSignatures (fromType TS heap fuel) (before ++ signature :: after)
    locationNode checker
  = Throw e.
Proof.
  intros Hbefore Hsignature.
  assert (Hs : signatureNode locationNode checker (classify fuel) signature = Throw e).
  { unfold signatureNode.
    destruct Hsignature as [(pb & p & pa & -> & Hpb & Hp) | [[args Hargs] Hret]].
    - rewrite (mapM_first_Throw _ _ _ _ e Hpb Hp). reflexivity.
    - apply mapM_Normal_iff in Hargs. unfold parameterYields in Hargs.
      rewrite Hargs. simpl. rewrite Hret. reflexivity. }
  assert (Hmap : mapM (signatureNode locationNode checker (classify fuel))
                      (before ++ signature :: after) = Throw e).
  { apply mapM_first_Throw; [| exact Hs].
    apply Forall_forall. intros earlier Hin. rewrite Forall_forall in Hbefore.
    destruct (Hbefore earlier Hin) as [node Hnode].
    exists node. apply signatureNode_yields. exact Hnode. }
  rewrite getNodeFromCallSignatures_convert. unfold convertSignatures.
  destruct (before ++ signature :: after) as [| s1 [| s2 rest]] eqn:Hlist.
  - destruct before; discriminate.
  - simpl in Hmap.
    destruct (signatureNode locationNode checker (classify fuel) s1); simpl in *;
      congruence.
  - rewrite Hmap. reflexivity.
Qed.

(** X12.  A big-integer literal with no digits: without the sign [BigInt]
    reads the empty string as zero and the type classifies to the literal
    0n; with the sign the string is ["-"], [BigInt] throws and so does the
    classifier. *)
Theorem empty_digits (fuel : nat) (ref : TypeRef) (p : PseudoBigInt) :
  dispatch TS (heap ref) = Some IsLiteral ->
  value (heap ref) = JsPseudoBigInt p ->
  base10Value p = ""%string ->
  run (S fuel) ref
  = if negative p then Throw SyntaxError else Normal (Core.literal (JsBigInt 0)).
Proof.
  intros Hstep Hvalue Hdigits. rewrite fromType_rule, Hstep. cbn [rule].
  unfold literalRule. rewrite Hvalue, Hdigits.
  destruct (negative p); reflexivity.
Qed.

(** X13.  When the graph below a type has no cycle and no type nested in it
    is one at which a failure starts, the classification of the type returns
    a node: one and the same for every call depth above its nesting depth. *)
Theorem classification_succeeds (depth : TypeRef -> nat) (ref : TypeRef) :
  acyclic heap locationNode checker depth ->
  (forall origin e,
      reaches heap locationNode checker ref origin -> ~ failsAt TS heap checker origin e) ->
  exists node, forall fuel, (depth ref < fuel)%nat -> run fuel ref = Normal node.
Proof.
  intros Hacyclic Hnone.
  pose proof (acyclic_returns TS heap locationNode checker depth Hacyclic
                (S (depth ref)) ref (Nat.lt_succ_diag_r _)) as Hends.
  destruct (run (S (depth ref)) ref) as [node | e |] eqn:Hrun.
  - exists node. intros fuel Hfuel.
    destruct (fromType_more_fuel TS heap locationNode checker
                (S (depth ref)) fuel (Some ref) Hfuel) as [H | H].
    + unfold classifyAt in H. congruence.
    + unfold classifyAt in H. rewrite H. exact Hrun.
  - apply failure_from in Hrun as (origin & Hreach & Hfails).
    destruct (Hnone origin e Hreach Hfails).
  - destruct (Hends eq_refl).
Qed.

(** X11.  The object of a type without call signatures whose members
    classify: no name twice, exactly the names of the members, and under
    each name the node of the last member of that name. *)
Theorem object_names (fuel : nat) (ref : TypeRef)
    (propertyMap : list (String.string * AnyNode)) :
  dispatch TS (heap ref) = Some IsObject ->
  isTupleReference TS heap (heap ref) = false ->
  getCallSignatures (heap ref) = [] ->
  Forall2 (propertyYields TS locationNode checker (classify fuel))
          (getProperties (heap ref)) propertyMap ->
  exists shape,
    run (S fuel) ref = Normal (Core.object shape)
    /\ NoDup (List.map fst shape)
    /\ (forall k, In k (List.map fst shape) <-> In k (List.map name (getProperties (heap ref))))
    /\ (forall k, getProperty shape k = getProperty (rev propertyMap) k).
Proof.
  intros Hstep Htuple Hsignatures Hproperties.
  exists (fromEntries propertyMap).
  destruct (fromEntries_object propertyMap) as (Hdup & Hin & Hget).
  split; [| split; [exact Hdup | split; [| exact Hget]]].
  - rewrite fromType_rule, Hstep. cbn [rule]. unfold compositeObjectRule.
    rewrite Htuple. unfold plainObjectRule. rewrite Hsignatures.
    apply (Forall2_iff _ _ _ _
             (fun p e => iff_sym (propertyEntry_yields TS heap locationNode checker fuel p e)))
      in Hproperties.
    apply mapM_Normal_iff in Hproperties. rewrite Hproperties. reflexivity.
  - intros k. rewrite Hin.
    rewrite (propertyYields_names TS locationNode checker _ _ _ Hproperties). tauto.
Qed.

End Further.

(** *** The shape of the nodes *)

Lemma placed_member (node : AnyNode) : placed false node = true -> placed true node = true.
Proof.
  destruct node; simpl; intros H; try exact H. discriminate H.
Qed.

Section Shape.

Context {Node_ : Type}.
Variable TS : ts.
Variable heap : TypeRef -> Type_.
Variable locationNode : Node_.
Variable checker : TypeChecker Node_.

Local Abbreviation classify := (classifyAt TS heap locationNode checker).
Local Abbreviation run fuel ref := (fromType TS heap fuel (Some ref) locationNode checker).

(** The converter returns a [func] node or the [union] of two or more. *)
Lemma convertSignatures_shape (fuel : nat) (signatures : list Signature) (node : AnyNode) :
  convertSignatures locationNode checker (classify fuel) signatures = Normal (Some node) ->
  isFunc node = true
  \/ exists nodes,
       node = Core.union nodes
       /\ forallb isFunc nodes = true /\ (2 <=? List.length nodes)%nat = true.
Proof.
  assert (Hfunc : forall signature n,
             signatureNode locationNode checker (classify fuel) signature = Normal n ->
             isFunc n = true).
  { intros signature n H. apply signatureNode_yields in H as (a & r & _ & _ & ->).
    reflexivity. }
  destruct signatures as [| s1 [| s2 rest]]; intros H.
  - discriminate.
  - simpl in H. apply bind_Normal_inv in H as (n & Hn & H). injection H as <-.
    left. eapply Hfunc. exact Hn.
  - apply bind_Normal_inv in H as (nodes & Hnodes & H). injection H as <-.
    right. exists nodes. split; [reflexivity |]. split.
    + eapply mapM_forallb; [| exact Hnodes]. intros s n _. apply Hfunc.
    + apply mapM_Normal_iff in Hnodes. apply Forall2_length in Hnodes.
      simpl in Hnodes. rewrite <- Hnodes. reflexivity.
Qed.

(** The node of a call is one its step can return. *)
Lemma step_produces (fuel : nat) (ref : TypeRef) (node : AnyNode) :
  run (S fuel) ref = Normal node ->
  exists step, dispatch TS (heap ref) = Some step /\ producedAt step node = true.
Proof.
  rewrite fromType_rule.
  destruct (dispatch TS (heap ref)) as [step |] eqn:Hstep; [| discriminate].
  intros H. exists step. split; [reflexivity |].
  destruct step; cbn [rule] in H; try (injection H as <-; reflexivity).
  - unfold literalRule in H. destruct (value (heap ref)); try (injection H as <-; reflexivity).
    apply bind_Normal_inv in H as (z & _ & H). injection H as <-. reflexivity.
  - unfold compositeObjectRule, tupleRule, plainObjectRule in H.
    destruct (isTupleReference TS heap (heap ref)).
    + apply bind_Normal_inv in H as (elements & _ & H). injection H as <-. reflexivity.
    + apply bind_Normal_inv in H as (propertyMap & _ & H).
      apply bind_Normal_inv in H as (signatureResult & Hconvert & H).
      injection H as <-.
      destruct signatureResult as [functionNode |]; [| reflexivity].
      apply convertSignatures_shape in Hconvert as [Hfunc | (nodes & -> & Hall & Hlen)].
      * destruct functionNode; try discriminate Hfunc. destruct propertyMap; reflexivity.
      * destruct propertyMap; unfold combine, producedAt; rewrite Hall, Hlen; reflexivity.
  - destruct (getSymbol (heap ref)) as [symbol |]; [| discriminate].
    unfold namedGenericRule in H.
    repeat match type of H with
           | (if ?b then _ else _) = _ => destruct b
           end;
      try discriminate;
      repeat (apply bind_Normal_inv in H as (? & _ & H));
      injection H as <-; reflexivity.
  - apply constituentsRule_Normal in H as (nodes & -> & _). reflexivity.
  - apply constituentsRule_Normal in H as (nodes & -> & _). reflexivity.
Qed.

(** X7.  The step at which a type is classified decides the kind of node:
    a primitive step gives its primitive, the is-literal step a [literal],
    the is-object step a [tuple], an [object], a [func], a [union] of two or
    more [func] nodes or the [intersection] of one of the last two with an
    [object]; the step of the symbol gives [array], [date], [set], [record]
    or [map], also for a type that is a union or an intersection; the last
    two steps give [union] and [intersection].  A type that passes no test
    returns no node. *)
Theorem node_of_step (fuel : nat) (ref : TypeRef) (node : AnyNode) :
  run (S fuel) ref = Normal node ->
  exists step, dispatch TS (heap ref) = Some step /\ producedAt step node = true.
Proof.
  apply step_produces.
Qed.

(** X8.  A primitive node is returned for exactly the types whose first
    matching step is that of the primitive: no other step, and no member,
    signature or constituent, ever gives [string], [number], [boolean],
    [unknown], [any] or [bigint] as the node of the type itself. *)
Theorem primitive_node (fuel : nat) (ref : TypeRef) (step : Step) (node : AnyNode) :
  primitive step = Some node ->
  run (S fuel) ref = Normal node <-> dispatch TS (heap ref) = Some step.
Proof.
  intros Hprimitive. split.
  - intros H. apply step_produces in H as (step' & Hstep' & Hproduced).
    rewrite Hstep'. f_equal.
    destruct step; try discriminate Hprimitive; injection Hprimitive as <-;
      destruct step'; try discriminate Hproduced; reflexivity.
  - intros Hstep. rewrite fromType_rule, Hstep.
    destruct step; try discriminate Hprimitive; injection Hprimitive as <-; reflexivity.
Qed.

Lemma symbol_step_not_object (type : Type_) :
  dispatch TS type = Some HasSymbol ->
  hasFlag type (TypeFlags.Object (ts_TypeFlags TS)) = false.
Proof.
  unfold dispatch, priority. cbn [find].
  repeat match goal with
         | |- context [if matches TS type ?step then _ else _] =>
             destruct (matches TS type step) eqn:?; try discriminate
         end.
  intros _. assumption.
Qed.

(** X14.  The is-object test comes before the symbol is read: a type with
    the is-object flag never classifies to [array], [set], [map], [record]
    or [date], whatever the name of its symbol. *)
Theorem object_flag_before_symbol (fuel : nat) (ref : TypeRef) (node : AnyNode) :
  hasFlag (heap ref) (TypeFlags.Object (ts_TypeFlags TS)) = true ->
  run (S fuel) ref = Normal node ->
  match node with
  | Core.array _ | Core.date | Core.set _ | Core.record _ _ | Core.map _ _ => False
  | _ => True
  end.
Proof.
  intros Hobject H. apply step_produces in H as (step & Hstep & Hproduced).
  destruct step;
    try (destruct node; try discriminate Hproduced; exact I).
  apply symbol_step_not_object in Hstep. congruence.
Qed.

Section OneCall.

Variable fuel : nat.
Hypothesis inner_placed :
  forall type node, classify fuel type = Normal node -> placed false node = true.

Lemma memberNode_placed (property : Symbol) (node : AnyNode) :
  memberNode TS locationNode checker (classify fuel) property = Normal node ->
  placed true node = true.
Proof.
  intros H. apply memberNode_yields in H as (inner & Hinner & ->).
  apply inner_placed in Hinner.
  destruct (isOptional TS property); simpl; [exact Hinner | apply placed_member, Hinner].
Qed.

Lemma signatureNode_placed (signature : Signature) (node : AnyNode) :
  signatureNode locationNode checker (classify fuel) signature = Normal node ->
  placed false node = true.
Proof.
  unfold signatureNode. intros H.
  apply bind_Normal_inv in H as (arguments & Harguments & H).
  apply bind_Normal_inv in H as (return_ & Hreturn & H). injection H as <-.
  simpl. apply andb_true_iff. split; [| eapply inner_placed; exact Hreturn].
  eapply mapM_forallb; [| exact Harguments].
  intros parameter n _ Hn. eapply inner_placed. exact Hn.
Qed.

Lemma convertSignatures_placed (signatures : list Signature) (node : AnyNode) :
  convertSignatures locationNode checker (classify fuel) signatures = Normal (Some node) ->
  placed false node = true.
Proof.
  destruct signatures as [| s1 [| s2 rest]]; intros H.
  - discriminate.
  - simpl in H. apply bind_Normal_inv in H as (n & Hn & H). injection H as <-.
    eapply signatureNode_placed. exact Hn.
  - apply bind_Normal_inv in H as (nodes & Hnodes & H). injection H as <-.
    simpl. eapply mapM_forallb; [| exact Hnodes].
    intros s n _. apply signatureNode_placed.
Qed.

Lemma rule_placed (ref : TypeRef) (step : option Step) (node : AnyNode) :
  rule TS heap locationNode checker (classify fuel) ref step = Normal node ->
  placed false node = true.
Proof.
  destruct step as [step |]; [| discriminate].
  destruct step; cbn [rule]; try (intros H; injection H as <-; reflexivity).
  - unfold literalRule. intros H.
    destruct (value (heap ref)); try (injection H as <-; reflexivity).
    apply bind_Normal_inv in H as (z & _ & H). injection H as <-. reflexivity.
  - unfold compositeObjectRule, tupleRule, plainObjectRule.
    destruct (isTupleReference TS heap (heap ref)); intros H.
    + apply bind_Normal_inv in H as (elements & Helements & H). injection H as <-.
      simpl. eapply mapM_forallb; [| exact Helements].
      intros property n _. apply memberNode_placed.
    + apply bind_Normal_inv in H as (propertyMap & Hmap & H).
      apply bind_Normal_inv in H as (signatureResult & Hconvert & H).
      injection H as <-.
      assert (Hobject : placed false (Core.object (fromEntries propertyMap)) = true).
      { simpl. apply (forallb_fromEntries (placed true)).
        eapply mapM_forallb; [| exact Hmap].
        intros property entry _ Hentry. unfold propertyEntry in Hentry.
        apply bind_Normal_inv in Hentry as (n & Hn & Hentry). injection Hentry as <-.
        simpl. eapply memberNode_placed. exact Hn. }
      destruct signatureResult as [functionNode |]; [| exact Hobject].
      apply convertSignatures_placed in Hconvert.
      destruct propertyMap; [exact Hconvert |].
      cbn [combine placed forallb]. cbn [placed] in Hobject.
      rewrite Hconvert, Hobject. reflexivity.
  - destruct (getSymbol (heap ref)) as [symbol |]; [| discriminate].
    unfold namedGenericRule. intros H.
    repeat match type of H with
           | (if ?b then _ else _) = _ => destruct b
           end;
      try discriminate;
      repeat match type of H with
             | bind _ _ = Normal _ =>
                 let Hc := fresh "Hc" in
                 apply bind_Normal_inv in H as (? & Hc & H); apply inner_placed in Hc
             end;
      injection H as <-; simpl;
      repeat match goal with Hc : placed false _ = true |- _ => rewrite Hc; clear Hc end;
      reflexivity.
  - intros H. apply bind_Normal_inv in H as (nodes & Hnodes & H). injection H as <-.
    simpl. eapply mapM_forallb; [| exact Hnodes]. intros c n _. apply inner_placed.
  - intros H. apply bind_Normal_inv in H as (nodes & Hnodes & H). injection H as <-.
    simpl. eapply mapM_forallb; [| exact Hnodes]. intros c n _. apply inner_placed.
Qed.

End OneCall.

(** X6.  [optional] is built around the node of an optional member only: in
    every node the classifier returns, an [optional] node is an element of a
    [tuple] or a value of an [object], it wraps a node that is not
    [optional], and it is never the node of the type itself, nor an element
    of an array or set, a key or value of a map or record, an argument or a
    return node of a function (the optionality of a parameter is dropped), or
    a member of a union or intersection. *)
Theorem optional_on_members_only (fuel : nat) (ref : TypeRef) (node : AnyNode) :
  run fuel ref = Normal node -> placed false node = true.
Proof.
  assert (H : forall fuel type node,
             classify fuel type = Normal node -> placed false node = true).
  { clear. induction fuel as [| fuel IH]; intros [ref |] node; try discriminate.
    unfold classifyAt. rewrite fromType_rule. apply rule_placed. exact IH. }
  apply H.
Qed.

End Shape.

(** *** The further properties on the example programs *)

(** The flag [String] on the type [string]. *)
Lemma flag_tests_read_bits_witness :
  hasFlag (Example.heap 0) 4 = true
  <-> forall i, Z.testbit 4 i = true -> Z.testbit (flags (Example.heap 0)) i = true.
Proof.
  apply (proj1 (flag_tests_read_bits 4 ltac:(lia)) (Example.heap 0)). simpl. lia.
Defined.

(** [String | Number] on the type [string]. *)
Lemma composite_flag_witness :
  hasFlag (Example.heap 0) (Z.lor 4 8) = hasFlag (Example.heap 0) 4 && hasFlag (Example.heap 0) 8.
Proof.
  apply (proj1 (composite_flag 4 8 ltac:(lia) ltac:(lia)) (Example.heap 0)). simpl. lia.
Defined.

Lemma flag_out_of_range_witness : hasFlag (Example.heap 0) (2 ^ 31) = false.
Proof.
  apply (proj1 (flag_out_of_range (2 ^ 31) ltac:(lia))).
Defined.

(** ["x" | "y"] *)
Lemma union_constituents_witness :
  Example.classify 2 4
  = Normal (Core.union [Core.literal (JsString "x"); Core.literal (JsString "y")]).
Proof.
  apply (proj2 (union_constituents Example.TS Example.heap tt Example.checker 1 4 _ eq_refl)).
  eexists. split; [reflexivity |]. repeat constructor.
Defined.

(** [string & { a: string, b?: number }] *)
Lemma intersection_constituents_witness :
  More.classify 3 38
  = Normal (Core.intersection
              [Core.string;
               Core.object [("a"%string, Core.string);
                            ("b"%string, Core.optional Core.number)]]).
Proof.
  apply (proj2 (intersection_constituents Example.TS More.heap tt Example.checker 2 38 _
                  eq_refl)).
  eexists. split; [reflexivity |]. repeat constructor.
Defined.

(** The callable object with the member [b]. *)
Lemma optional_on_members_only_witness :
  placed false
    (Core.intersection
       [Core.func [Core.string] Core.number;
        Core.object [("b"%string, Core.optional Core.number)]]) = true.
Proof.
  exact (optional_on_members_only Example.TS Example.heap tt Example.checker 2 8 _ eq_refl).
Defined.

(** The union ["x" | "y"], classified at the is-union step. *)
Lemma node_of_step_witness :
  exists step,
    dispatch Example.TS (Example.heap 4) = Some step
    /\ producedAt step
         (Core.union [Core.literal (JsString "x"); Core.literal (JsString "y")]) = true.
Proof.
  exact (node_of_step Example.TS Example.heap tt Example.checker 1 4 _ eq_refl).
Defined.

Lemma primitive_node_witness :
  Example.classify 1 0 = Normal Core.string
  <-> dispatch Example.TS (Example.heap 0) = Some IsString.
Proof.
  exact (primitive_node Example.TS Example.heap tt Example.checker 0 0 IsString Core.string
           eq_refl).
Defined.

(** The tuple [[string, void]] with its [length]: the member [bad] fails after
    [0] is classified and [length] is passed over. *)
Lemma first_member_failure_witness :
  More.classify 2 31 = Throw (Error "Unknown type: void").
Proof.
  refine (first_member_failure Example.TS More.heap tt Example.checker 1 31
            [Example.sym_0; Example.sym_length] [] More.sym_bad
            (Error "Unknown type: void") eq_refl eq_refl _ eq_refl eq_refl).
  constructor; [right; eexists; reflexivity |].
  constructor; [left; reflexivity | constructor].
Defined.

(** The overloads [(x: string) => number] and
    [(x: string, bad: void) => number]. *)
Lemma first_signature_failure_witness :
  getNodeFromCallSignatures (fromType Example.TS More.heap 1)
    [Example.sig_f; More.sig_bad] tt Example.checker
  = Throw (Error "Unknown type: void").
Proof.
  refine (first_signature_failure Example.TS More.heap tt Example.checker 1
            [Example.sig_f] [] More.sig_bad (Error "Unknown type: void") _ _).
  - constructor; [| constructor].
    exists (Core.func [Core.string] Core.number), [Core.string], Core.number.
    split; [repeat constructor | split; reflexivity].
  - left. exists [Example.sym_x], More.sym_bad, [].
    split; [reflexivity |]. split; [| reflexivity].
    constructor; [eexists; reflexivity | constructor].
Defined.

(** [{ a: string, b?: number, a: number }] as a list of members. *)
Lemma object_names_witness :
  exists shape,
    More.classify 2 32 = Normal (Core.object shape)
    /\ NoDup (List.map fst shape)
    /\ (forall k, In k (List.map fst shape) <-> In k ["a"; "b"; "a"]%string)
    /\ (forall k, getProperty shape k
                  = getProperty [("a", Core.number); ("b", Core.optional Core.number);
                                 ("a", Core.string)]%string k).
Proof.
  refine (object_names Example.TS More.heap tt Example.checker 1 32
            [("a", Core.string); ("b", Core.optional Core.number); ("a", Core.number)]%string
            eq_refl eq_refl eq_refl _).
  repeat constructor; eexists; split; reflexivity.
Defined.

(** The sign without digits. *)
Lemma empty_digits_witness : More.classify 1 35 = Throw SyntaxError.
Proof.
  exact (empty_digits Example.TS More.heap tt Example.checker 0 35
           (mkPseudoBigInt true "") eq_refl eq_refl eq_refl).
Defined.

(** No failure starts at [{ a: string, b?: number }], [string] or
    [number]. *)
Lemma example_object_sound (origin : TypeRef) (e : Thrown) :
  reaches Example.heap tt Example.checker 5 origin ->
  ~ failsAt Example.TS Example.heap Example.checker origin e.
Proof.
  assert (Hleaf : forall ref,
             ref = 0%nat \/ ref = 1%nat ->
             reaches Example.heap tt Example.checker ref origin -> origin = ref).
  { intros ref Href Hreach.
    inversion Hreach as [| ? inner ? Hin _]; subst; [reflexivity |].
    destruct Href as [-> | ->]; destruct Hin. }
  intros Hreach Hfails.
  assert (Horigin : origin = 5%nat \/ origin = 0%nat \/ origin = 1%nat).
  { inversion Hreach as [| ? inner ? Hin Hinner]; subst; [left; reflexivity |].
    right. simpl in Hin. destruct Hin as [<- | [<- | []]].
    - left. apply Hleaf; [left; reflexivity | exact Hinner].
    - right. apply Hleaf; [right; reflexivity | exact Hinner]. }
  destruct Horigin as [-> | [-> | ->]];
    inversion Hfails as [? Hstep | Hstep | ? ? Hstep | ? Hstep]; discriminate Hstep.
Qed.

Lemma classification_succeeds_witness :
  exists node, forall fuel, (Example.depth 5 < fuel)%nat -> Example.classify fuel 5 = Normal node.
Proof.
  exact (classification_succeeds Example.TS Example.heap tt Example.checker Example.depth 5
           example_acyclic example_object_sound).
Defined.

(** An object type with the symbol [Array] and the member [length]. *)
Lemma object_flag_before_symbol_witness :
  option_map name (getSymbol (More.heap 39)) = Some "Array"%string
  /\ More.classify 2 39 = Normal (Core.object [("length"%string, Core.number)]).
Proof.
  split; [reflexivity |].
  pose proof (object_flag_before_symbol Example.TS More.heap tt Example.checker 1 39
                (Core.object [("length"%string, Core.number)]) eq_refl eq_refl) as H.
  destruct H. reflexivity.
Defined.
